(** * RayTracing: the scene query, the shader and the render driver of main.cpp

    A shallow embedding of [FindFirstIntersector], [TraceRay] and [DrawScene]
    (src/raytracer_cpp/main.cpp), with the properties the specification
    states about them.

    - [float] is IEEE-754 binary32, given by the Standard Library's
      executable specification of floating-point numbers ([SpecFloat], at
      precision 24 and maximal exponent 128), so that NaN, the infinities
      and FLT_MAX behave as they do in the program and every definition
      can be evaluated.
    - The glm functions main.cpp calls by their qualified names are written
      as glm defines them.  [clamp] is called unqualified, through
      common.h, which is not among the sources: [DrawScene] takes it as a
      parameter, and [func_common.clamp] is the clamp of glm.
    - [SceneObject] and [Camera] are declared in sceneobjects.h and camera.h,
      which are not among the sources: they are taken as records of the
      member functions main.cpp calls, and the theorems hold for every
      implementation of them.
    - A [std::shared_ptr<SceneObject>] is an address into a store of
      objects, so that [occluder != light] compares identities. *)

From Stdlib Require Import ZArith List Bool Lia.
From Stdlib Require Import Floats.SpecFloat.
Import ListNotations.

(** ** binary32 scalars *)

Module F32.

Definition prec : Z := 24.
Definition emax : Z := 128.

Definition float : Type := spec_float.

Definition add : float -> float -> float := SFadd prec emax.
Definition sub : float -> float -> float := SFsub prec emax.
Definition mul : float -> float -> float := SFmul prec emax.
Definition div : float -> float -> float := SFdiv prec emax.
Definition sqrt : float -> float := SFsqrt prec emax.

(** The comparison [a < b] of two floats: false as soon as one is NaN. *)
Definition ltb : float -> float -> bool := SFltb.
Definition leb : float -> float -> bool := SFleb.

Definition is_nan (a : float) : bool :=
  match a with S754_nan => true | _ => false end.

(** [(float)n] for an integer [n], rounded to nearest. *)
Definition of_int (n : Z) : float := binary_normalize prec emax n 0 false.

(** FLT_MAX of <cfloat>: (2^24 - 1) * 2^104. *)
Definition FLT_MAX : float := S754_finite false 16777215 104.

(** The literals of main.cpp. *)
Definition zero : float := S754_zero false.            (* 0.0f   *)
Definition half : float := S754_finite false 8388608 (-24).  (* .5f    *)
Definition eps : float := S754_finite false 8589935 (-33).   (* 0.001f *)
Definition two : float := of_int 2.
Definition one : float := of_int 1.
Definition f255 : float := of_int 255.                 (* 255.0f *)

(** [std::max(a, b)] of <algorithm>: [(a < b) ? b : a]. *)
Definition std_max (a b : float) : float := if ltb a b then b else a.

(** [uint8_t(a)]: the value is truncated toward zero, and the conversion
    is undefined ([None]) unless the truncated value fits the type, that
    is unless [-1 < a < 256].  For such an [a] the truncated value is the
    number of integers [1 .. 255] that are at most [a]. *)
Definition uint8_t (a : float) : option Z :=
  if ltb (of_int (-1)) a && ltb a (of_int 256)
  then Some (Z.of_nat (length
         (filter (fun k => leb (of_int (Z.of_nat k)) a) (seq 1 255))))
  else None.

End F32.

Import F32.

Declare Scope float_scope.
Delimit Scope float_scope with flt.
Bind Scope float_scope with float.
Infix "+" := add : float_scope.
Infix "-" := sub : float_scope.
Infix "*" := mul : float_scope.
Infix "/" := div : float_scope.
Infix "<?" := ltb : float_scope.
Infix "<=?" := leb : float_scope.

(** ** glm vectors *)

Module glm.

Record vec3 : Type := Vec3 { x : float; y : float; z : float }.

(** A [vec2] is only built by main.cpp, never taken apart. *)
Definition vec2 : Type := (float * float)%type.

Local Open Scope float_scope.

(** [a + b], [a - b] and [a * b] on vectors work component by component;
    [a * s] multiplies every component by the scalar [s]. *)
Definition plus (a b : vec3) : vec3 :=
  Vec3 (x a + x b) (y a + y b) (z a + z b).
Definition minus (a b : vec3) : vec3 :=
  Vec3 (x a - x b) (y a - y b) (z a - z b).
Definition times (a b : vec3) : vec3 :=
  Vec3 (x a * x b) (y a * y b) (z a * z b).
Definition scale (a : vec3) (s : float) : vec3 :=
  Vec3 (x a * s) (y a * s) (z a * s).

(** [glm::dot]: the components of [a * b] summed from left to right. *)
Definition dot (a b : vec3) : float :=
  let tmp := times a b in x tmp + y tmp + z tmp.

(** [glm::inversesqrt] and [glm::normalize]. *)
Definition inversesqrt (s : float) : float := one / sqrt s.
Definition normalize (a : vec3) : vec3 := scale a (inversesqrt (dot a a)).

(** [glm::reflect(I, N)] is [I - N * dot(N, I) * 2]. *)
Definition reflect (I N : vec3) : vec3 :=
  minus I (scale (scale N (dot N I)) two).

End glm.

Import glm.

Declare Scope vec_scope.
Delimit Scope vec_scope with vec.
Bind Scope vec_scope with vec3.
Infix "+" := plus : vec_scope.
Infix "-" := minus : vec_scope.
Infix "*" := times : vec_scope.
Infix "*:" := scale (at level 40, left associativity) : vec_scope.

(** ** Materials, scene objects and the camera *)

(** The fields of [Material] that main.cpp reads or writes. *)
Record Material : Type := {
  albedo : vec3;
  specular : vec3;
  emissive : vec3;
  reflectance : float
}.

(** The virtual member functions of [SceneObject] that main.cpp calls.
    [Intersects from dir] is [Some distance] when the call returns true
    and has stored [distance], and [None] when it returns false (the
    output argument is not read in that case). *)
Record SceneObject : Type := {
  Intersects : vec3 -> vec3 -> option float;
  GetSurfaceNormal : vec3 -> vec3;
  GetMaterial : vec3 -> Material;
  GetRayFrom : vec3 -> vec3
}.

Record Camera : Type := {
  position : vec3;
  GetWorldRay : vec2 -> vec3
}.

(** A shared pointer is the address of the object it owns; two pointers
    are equal when they are the same address. *)
Definition ptr : Type := nat.

Definition same_object (a : option ptr) (b : ptr) : bool :=
  match a with
  | Some p => Nat.eqb p b
  | None => false
  end.

Definition ImageWidth : Z := 512.
Definition ImageHeight : Z := 512.
Definition FieldOfView : float := of_int 60.
Definition MaxDepth : Z := 3.

(** ** Rays handed to the scene query

    [TraceRay] is written in a writer monad that records, in order, every
    ray it passes to [FindFirstIntersector]; the colour it returns is the
    first component. *)

Definition Ray : Type := (vec3 * vec3)%type.

Definition Traced (A : Type) : Type := (A * list Ray)%type.

Definition ret {A} (a : A) : Traced A := (a, []).

Definition bind {A B} (m : Traced A) (f : A -> Traced B) : Traced B :=
  let (b, rays) := f (fst m) in (b, snd m ++ rays).

Notation "x <- m ;; k" := (bind m (fun x => k))
  (at level 61, m at next level, right associativity).
Notation "' pat <- m ;; k" := (bind m (fun x => match x with pat => k end))
  (at level 61, pat pattern, m at next level, right associativity).

Fixpoint foldT {A B} (f : A -> B -> Traced A) (l : list B) (a : A) : Traced A :=
  match l with
  | [] => ret a
  | b :: l' => a' <- f a b ;; foldT f l' a'
  end.

Section Scene.

(** The globals of main.cpp: the store the shared pointers point into,
    the list [sceneObjects] and the camera. *)
Variable heap : ptr -> SceneObject.
Variable sceneObjects : list ptr.
Variable pCamera : Camera.

(** [clamp], as common.h makes it visible to main.cpp. *)
Variable clamp : vec3 -> vec3 -> vec3 -> vec3.

(** One turn of the loop of [FindFirstIntersector]. *)
Definition FindFirstIntersector_step (from dir : vec3)
    (acc : option ptr * float) (obj : ptr) : option ptr * float :=
  let (pObject, minDistance) := acc in
  match Intersects (heap obj) from dir with
  | Some distance =>
      if (distance <? minDistance)%flt then (Some obj, distance)
      else (pObject, minDistance)
  | None => (pObject, minDistance)
  end.

(** The pointer returned and the value stored in [dst]. *)
Definition FindFirstIntersector (from dir : vec3) : option ptr * float :=
  fold_left (FindFirstIntersector_step from dir) sceneObjects (None, FLT_MAX).

Definition query (from dir : vec3) : Traced (option ptr * float) :=
  (FindFirstIntersector from dir, [(from, dir)]).

Local Open Scope vec_scope.

Definition origin0 : vec3 := Vec3 zero zero zero.

(** The body of the loop over the candidate lights in [TraceRay]. *)
Definition TraceRay_light (raydir : vec3) (obj : ptr)
    (interPos normal albedo : vec3) (color : vec3) (light : ptr)
    : Traced vec3 :=
  let rayFrom := GetRayFrom (heap light) interPos in
  let rayFrom := normalize rayFrom in
  ' (occluder, dis) <- query (interPos + rayFrom *: eps) rayFrom ;;
  let occlusionOccurred := negb (same_object occluder light) in
  if negb occlusionOccurred then
    let intensity := std_max (dot normal rayFrom) zero in
    let color :=
      color
      + albedo * emissive (GetMaterial (heap light) origin0) *: intensity in
    let reflection := reflect raydir normal in
    let specular_intensity := dot reflection rayFrom in
    let specular_intensity := (specular_intensity * specular_intensity)%flt in
    let color :=
      color + specular (GetMaterial (heap obj) origin0) *: specular_intensity in
    ret color
  else ret color.

(** [TraceRay] with the rays it queries.  The result is [None] when the
    pointer returned for the primary ray is empty: the program then
    calls a member function through a null pointer. *)
Definition TraceRay_traced (rayorig raydir : vec3) (depth : Z)
    : Traced (option vec3) :=
  ' (obj, minDistance) <- query rayorig raydir ;;
  match obj with
  | None => ret None
  | Some obj =>
      let interPos := rayorig + normalize raydir *: minDistance in
      let normal := GetSurfaceNormal (heap obj) interPos in
      let albedo := albedo (GetMaterial (heap obj) interPos) in
      let color := emissive (GetMaterial (heap obj) origin0) in
      color <- foldT (TraceRay_light raydir obj interPos normal albedo)
                     sceneObjects color ;;
      ret (Some color)
  end.

Definition TraceRay (rayorig raydir : vec3) (depth : Z) : option vec3 :=
  fst (TraceRay_traced rayorig raydir depth).

Definition TraceRay_queries (rayorig raydir : vec3) (depth : Z) : list Ray :=
  snd (TraceRay_traced rayorig raydir depth).

(** A call [PutPixel(pBitmap, x, y, Color{r, g, b})]. *)
Definition PutPixel : Type := (Z * Z * (Z * Z * Z))%type.

(** The body of the two loops of [DrawScene]; [None] when the program has
    no defined behaviour for the pixel. *)
Definition DrawScene_pixel (px py : Z) : option PutPixel :=
  let ray :=
    GetWorldRay pCamera ((of_int px + half)%flt, (of_int py + half)%flt) in
  match TraceRay (position pCamera) ray 0 with
  | None => None
  | Some color =>
      let color := color *: f255 in
      let color := clamp color (Vec3 zero zero zero) (Vec3 f255 f255 f255) in
      match uint8_t (x color), uint8_t (y color), uint8_t (z color) with
      | Some r, Some g, Some b => Some (px, py, (r, g, b))
      | _, _, _ => None
      end
  end.

Definition range (n : Z) : list Z := map Z.of_nat (seq 0 (Z.to_nat n)).

Fixpoint for_each {A B} (f : A -> option B) (l : list A) : option (list B) :=
  match l with
  | [] => Some []
  | a :: l' =>
      match f a, for_each f l' with
      | Some b, Some bs => Some (b :: bs)
      | _, _ => None
      end
  end.

(** The pixels written by [DrawScene], in the order of the calls. *)
Definition DrawScene : option (list PutPixel) :=
  for_each (fun p : Z * Z => DrawScene_pixel (fst p) (snd p))
    (flat_map (fun py => map (fun px => (px, py)) (range ImageWidth))
              (range ImageHeight)).

End Scene.

(** ** The primitives of sceneobjects.h *)

Module Primitives.

Local Open Scope float_scope.

(** The largest integer that is at most [a] ([0] when [a] is not finite). *)
Definition floor (a : float) : Z :=
  match a with
  | S754_finite s m e =>
      let n := if s then Z.neg m else Z.pos m in
      if (0 <=? e)%Z then (n * 2 ^ e)%Z else (n / 2 ^ (- e))%Z
  | _ => 0%Z
  end.

(** Modelled from the spec: the ray-sphere test of sceneobjects.h, which
    is not among the sources (section 4.1): the quadratic in the ray
    parameter, no hit when the discriminant or the smaller root is
    negative. *)
Definition Sphere_hit (center : vec3) (radius : float) (from dir : vec3)
    : option float :=
  let oc := minus from center in
  let a := dot dir dir in
  let b := two * dot oc dir in
  let c := dot oc oc - radius * radius in
  let disc := b * b - of_int 4 * a * c in
  if disc <? zero then None
  else
    let t := (SFopp b - sqrt disc) / (two * a) in
    if t <? zero then None else Some t.

(** Modelled from the spec: the sphere of sceneobjects.h, which is not
    among the sources.  Its intersection test normalizes the direction
    (section 3) and then runs [Sphere_hit]; its normal at a point is
    [normalize (point - center)], its light direction from a point is
    [normalize (center - point)] and its material is the same
    everywhere. *)
Definition Sphere (mat : Material) (center : vec3) (radius : float)
    : SceneObject :=
  {| Intersects from dir := Sphere_hit center radius from (normalize dir);
     GetSurfaceNormal point := normalize (minus point center);
     GetMaterial _ := mat;
     GetRayFrom point := normalize (minus center point) |}.

(** Modelled from the spec: the tiled plane of sceneobjects.h, which is
    not among the sources, for a horizontal plane with tiles of side 1
    along the x and z axes.  Its intersection test normalizes the
    direction and uses the ray-plane formula of section 4.1 (no hit for
    a parallel ray or a negative distance); its material at a point is
    one of two fixed materials, chosen by the parity of the sum of the
    two tile indices.  The spec does not give its light direction: the
    plane normal is used. *)
Definition TiledPlane (evenMat oddMat : Material) (point normal : vec3)
    : SceneObject :=
  {| Intersects from dir :=
       let dir := normalize dir in
       let denom := dot dir normal in
       if SFeqb denom zero then None
       else
         let t := dot (minus point from) normal / denom in
         if t <? zero then None else Some t;
     GetSurfaceNormal _ := normal;
     GetMaterial p :=
       if Z.even (floor (x p) + floor (z p)) then evenMat else oddMat;
     GetRayFrom _ := normal |}.

(** A store holding the given objects at the addresses [0, 1, ...]. *)
Definition store (objs : list SceneObject) (default : SceneObject)
    : ptr -> SceneObject :=
  fun p => nth p objs default.

End Primitives.

(** ** The statements of the specification, in its own words *)

Section Shading.

Variable heap : ptr -> SceneObject.
Variable sceneObjects : list ptr.

Local Open Scope vec_scope.

(** The direction from a surface point toward a candidate light,
    normalized, and the shadow ray cast along it from the point moved by
    0.001 times that direction. *)
Definition lightDir (interPos : vec3) (light : ptr) : vec3 :=
  normalize (GetRayFrom (heap light) interPos).

Definition shadow_ray (interPos : vec3) (light : ptr) : Ray :=
  (interPos + lightDir interPos light *: eps, lightDir interPos light).

(** The object nearest along the shadow ray toward [light]. *)
Definition occluder (interPos : vec3) (light : ptr) : option ptr :=
  fst (FindFirstIntersector heap sceneObjects
         (fst (shadow_ray interPos light)) (snd (shadow_ray interPos light))).

(** A light is unoccluded when that object is the light itself. *)
Definition unoccluded (interPos : vec3) (light : ptr) : bool :=
  same_object (occluder interPos light) light.

(** The diffuse term: max(dot(normal, lightDir), 0), the albedo of the
    hit point and the emissive colour of the light, multiplied. *)
Definition diffuse_term (interPos normal albedo : vec3) (light : ptr) : vec3 :=
  albedo * emissive (GetMaterial (heap light) origin0)
    *: std_max (dot normal (lightDir interPos light)) zero.

(** The raw dot product of the reflected ray direction with the light
    direction, and the specular term: its square times a specular
    colour. *)
Definition specular_dot (raydir interPos normal : vec3) (light : ptr) : float :=
  dot (reflect raydir normal) (lightDir interPos light).

Definition specular_term (speccolor : vec3) (d : float) : vec3 :=
  speccolor *: (d * d)%flt.

(** What an object reports for the ray [from], [dir]. *)
Definition hit (from dir : vec3) (q : ptr) : option float :=
  Intersects (heap q) from dir.

(** [nearest from dir l r]: [r] is the nearest hit of the ray among the
    objects of [l].  Either no object of [l] reports a distance below
    FLT_MAX and [r] is the empty pointer with FLT_MAX; or [r] is an
    object [p] of [l] and the distance [d] it reports, [d] is below
    FLT_MAX, no object of [l] reports a distance below [d], and every
    object before [p] in [l] reports a distance strictly above [d]
    (or NaN), so that of several objects at distance [d] the first one
    is [p]. *)
Definition nearest (from dir : vec3) (l : list ptr)
    (r : option ptr * float) : Prop :=
  match r with
  | (None, d) =>
      d = FLT_MAX /\
      forall q d', In q l -> hit from dir q = Some d' ->
                   (d' <? FLT_MAX)%flt = false
  | (Some p, d) =>
      exists l1 l2,
        l = l1 ++ p :: l2 /\
        hit from dir p = Some d /\
        (d <? FLT_MAX)%flt = true /\
        (forall q d', In q l -> hit from dir q = Some d' ->
                      (d' <? d)%flt = false) /\
        (forall q d', In q l1 -> hit from dir q = Some d' ->
                      (d <? d')%flt = true \/ is_nan d' = true)
  end.

(** [TraceRay] as the specification words it: the material of the hit
    object is fetched at the intersection point, the colour starts from
    the emissive colour of that material and the specular term uses its
    specular colour. *)
Definition TraceRay_hit_material (rayorig raydir : vec3) (depth : Z)
    : option vec3 :=
  match FindFirstIntersector heap sceneObjects rayorig raydir with
  | (None, _) => None
  | (Some obj, minDistance) =>
      let interPos := rayorig + normalize raydir *: minDistance in
      let normal := GetSurfaceNormal (heap obj) interPos in
      let material := GetMaterial (heap obj) interPos in
      Some (fold_left
              (fun color light =>
                 if unoccluded interPos light then
                   color + diffuse_term interPos normal (albedo material) light
                     + specular_term (specular material)
                         (specular_dot raydir interPos normal light)
                 else color)
              sceneObjects (emissive material))
  end.

(** The same objects with the reflectance of every material replaced. *)
Definition with_reflectance (r : ptr -> vec3 -> float) : ptr -> SceneObject :=
  fun p =>
    {| Intersects := Intersects (heap p);
       GetSurfaceNormal := GetSurfaceNormal (heap p);
       GetMaterial pos :=
         {| albedo := albedo (GetMaterial (heap p) pos);
            specular := specular (GetMaterial (heap p) pos);
            emissive := emissive (GetMaterial (heap p) pos);
            reflectance := r p pos |};
       GetRayFrom := GetRayFrom (heap p) |}.

(** An object normalizes the direction internally when its intersection
    test sees the direction only through [normalize]. *)
Definition normalizes_internally (o : SceneObject) : Prop :=
  exists test : vec3 -> vec3 -> option float,
    forall from dir, Intersects o from dir = test from (normalize dir).

End Shading.

(** ** The order of binary32 numbers

    Numbers other than NaN are ordered by sign and class ([rank]), then by
    exponent, then by mantissa; this is the order [SFcompare] decides. *)

Module Order.

Local Open Scope Z_scope.

Definition rank (a : float) : Z :=
  match a with
  | S754_infinity true => -2
  | S754_finite true _ _ => -1
  | S754_finite false _ _ => 1
  | S754_infinity false => 2
  | _ => 0
  end.

Definition expo (a : float) : Z :=
  match a with
  | S754_finite true _ e => - e
  | S754_finite false _ e => e
  | _ => 0
  end.

Definition mant (a : float) : Z :=
  match a with
  | S754_finite true m _ => Z.neg m
  | S754_finite false m _ => Z.pos m
  | _ => 0
  end.

Definition below (a b : float) : Prop :=
  rank a < rank b \/
  (rank a = rank b /\
   (expo a < expo b \/ (expo a = expo b /\ mant a < mant b))).

End Order.

(** The ray through the centre of the pixel [(px, py)]. *)
Definition pixel_ray (pCamera : Camera) (px py : Z) : vec3 :=
  GetWorldRay pCamera ((of_int px + half)%flt, (of_int py + half)%flt).

(** The three channels of a written pixel are bytes. *)
Definition bytes (p : Z * Z * (Z * Z * Z)) : Prop :=
  let '(_, _, (r, g, b)) := p in
  (0 <= r <= 255 /\ 0 <= g <= 255 /\ 0 <= b <= 255)%Z.

(** [clamp] honours its contract when every channel of its result lies
    between the bounds, for bounds in order. *)
Definition between (lo a hi : float) : Prop :=
  (lo <=? a)%flt = true /\ (a <=? hi)%flt = true.

Definition clamps (clamp : vec3 -> vec3 -> vec3 -> vec3) : Prop :=
  forall a lo hi,
    (x lo <=? x hi)%flt = true ->
    (y lo <=? y hi)%flt = true ->
    (z lo <=? z hi)%flt = true ->
    between (x lo) (x (clamp a lo hi)) (x hi) /\
    between (y lo) (y (clamp a lo hi)) (y hi) /\
    between (z lo) (z (clamp a lo hi)) (z hi).

(** ** Scenes used to run the definitions *)

Module Examples.

Import Primitives.

Definition vec (a b c : Z) : vec3 := Vec3 (of_int a) (of_int b) (of_int c).

Definition material (a s e : vec3) : Material :=
  {| albedo := a; specular := s; emissive := e; reflectance := zero |}.

(** A white glossy tile, a dark tile that glows red, and a white lamp. *)
Definition glossy : Material := material (vec 1 1 1) (vec 1 1 1) (vec 0 0 0).
Definition glowing : Material :=
  material (vec 0 0 0) (vec 0 0 0) (Vec3 half zero zero).
Definition lamp : Material := material (vec 0 0 0) (vec 0 0 0) (vec 1 1 1).

(** The ground plane y = 0, glossy on the tile that holds the origin. *)
Definition board : SceneObject :=
  TiledPlane glossy glowing (vec 0 0 0) (vec 0 1 0).

(** A checkerboard under a lamp straight above the origin. *)
Definition board_heap : ptr -> SceneObject :=
  store [board; Sphere lamp (vec 0 10 0) one] board.

(** The same board under a lamp up and to the left. *)
Definition side_heap : ptr -> SceneObject :=
  store [board; Sphere lamp (vec (-10) 5 0) one] board.

Definition two_objects : list ptr := [0; 1]%nat.
Definition one_object : list ptr := [0%nat].

(** A ray straight down onto the glowing tile next to the origin tile,
    one straight down onto the origin tile, and one that comes in from
    the left and reflects away from the side lamp. *)
Definition above_glowing : vec3 := Vec3 (of_int 1 + half)%flt (of_int 4) half.
Definition above_glossy : vec3 := Vec3 half (of_int 4) half.
Definition down : vec3 := vec 0 (-1) 0.
Definition from_left : vec3 := Vec3 (of_int (-1)) (of_int 1) half.
Definition down_right : vec3 := vec 1 (-1) 0.

(** A backdrop: an object that every ray hits, at distance FLT_MAX. *)
Definition Backdrop (mat : Material) : SceneObject :=
  {| Intersects _ _ := Some FLT_MAX;
     GetSurfaceNormal _ := vec 0 0 1;
     GetMaterial _ := mat;
     GetRayFrom _ := vec 0 0 1 |}.

Definition backdrop_heap : ptr -> SceneObject :=
  store [Backdrop glossy] (Backdrop glossy).

(** A unit sphere at the origin whose test runs the quadratic on the
    direction as it is given. *)
Definition RawSphere : SceneObject :=
  {| Intersects := Sphere_hit (vec 0 0 0) one;
     GetSurfaceNormal point := normalize point;
     GetMaterial _ := lamp;
     GetRayFrom point := normalize (minus (vec 0 0 0) point) |}.

Definition raw_heap : ptr -> SceneObject := store [RawSphere] RawSphere.

(** A sphere of radius 2 on the diagonal of the y and z axes. *)
Definition diagonal_heap : ptr -> SceneObject :=
  store [Sphere lamp (vec 0 6 6) two] (Sphere lamp (vec 0 6 6) two).

(** Two spheres in the same place. *)
Definition twin_heap : ptr -> SceneObject :=
  store [Sphere lamp (vec 0 0 0) one; Sphere glossy (vec 0 0 0) one]
        (Sphere lamp (vec 0 0 0) one).

(** A unit sphere at the origin, seen from the z axis. *)
Definition unit_heap : ptr -> SceneObject :=
  store [Sphere lamp (vec 0 0 0) one] (Sphere lamp (vec 0 0 0) one).

(** A clamp written with comparisons: [min (max a lo) hi] on every
    channel, where [max a b] is [a > b ? a : b] and [min a b] is
    [a < b ? a : b]. *)
Definition min1 (a b : float) : float := if (a <? b)%flt then a else b.
Definition max1 (a b : float) : float := if (b <? a)%flt then a else b.
Definition clamp1 (a lo hi : float) : float := min1 (max1 a lo) hi.
Definition clamp (a lo hi : vec3) : vec3 :=
  Vec3 (clamp1 (x a) (x lo) (x hi)) (clamp1 (y a) (y lo) (y hi))
       (clamp1 (z a) (z lo) (z hi)).

(** A camera above the origin tile whose rays all point straight down. *)
Definition top_camera : Camera :=
  {| position := above_glossy; GetWorldRay _ := down |}.

(** Where the rays above meet the board, and the normal there. *)
Definition on_glowing : vec3 :=
  plus above_glowing (scale (normalize down) (of_int 4)).
Definition on_glossy : vec3 :=
  plus above_glossy (scale (normalize down) (of_int 4)).
Definition left_distance : float := S754_finite false 11863283 (-23).
Definition on_left : vec3 :=
  plus from_left (scale (normalize down_right) left_distance).
Definition up : vec3 := vec 0 1 0.

End Examples.


(** ** The clamp of glm

    [glm::min], [glm::max] and [glm::clamp] as glm's func_common.inl
    writes them: [min(x, y)] is [(y < x) ? y : x], [max(x, y)] is
    [(x < y) ? y : x] and [clamp(x, minVal, maxVal)] is
    [min(max(x, minVal), maxVal)], component by component on vectors.
    A comparison with a NaN is false, so a NaN goes through all three.
    (Older releases wrote [x < y ? x : y] and [x > y ? x : y], the form
    of [Examples.clamp], which sends a NaN to the lower bound.) *)

Module func_common.

Definition min (x y : float) : float := if (y <? x)%flt then y else x.
Definition max (x y : float) : float := if (x <? y)%flt then y else x.
Definition clamp1 (x minVal maxVal : float) : float :=
  min (max x minVal) maxVal.
Definition clamp (x minVal maxVal : vec3) : vec3 :=
  Vec3 (clamp1 (glm.x x) (glm.x minVal) (glm.x maxVal))
       (clamp1 (glm.y x) (glm.y minVal) (glm.y maxVal))
       (clamp1 (glm.z x) (glm.z minVal) (glm.z maxVal)).

End func_common.

(** No channel of the colour is NaN. *)
Definition no_nan (v : vec3) : Prop :=
  is_nan (x v) = false /\ is_nan (y v) = false /\ is_nan (z v) = false.

(** [TraceRay] with the specular term as the specification words it:
    the square of the raw dot product times the specular colour of the
    material of the hit object at the intersection point.  Everything
    else is as main.cpp has it. *)
Definition TraceRay_hit_specular
    (heap : ptr -> SceneObject) (sceneObjects : list ptr)
    (rayorig raydir : vec3) (depth : Z) : option vec3 :=
  match FindFirstIntersector heap sceneObjects rayorig raydir with
  | (None, _) => None
  | (Some obj, minDistance) =>
      let interPos := (rayorig + normalize raydir *: minDistance)%vec in
      let normal := GetSurfaceNormal (heap obj) interPos in
      let material := GetMaterial (heap obj) interPos in
      Some (fold_left
              (fun color light =>
                 if unoccluded heap sceneObjects interPos light then
                   (color
                    + diffuse_term heap interPos normal (albedo material) light
                    + specular material
                        *: (specular_dot heap raydir interPos normal light
                            * specular_dot heap raydir interPos normal light)%flt
                   )%vec
                 else color)
              sceneObjects (emissive (GetMaterial (heap obj) origin0)))
  end.

(** ** Further notions about the scene query and the render driver *)

Section MoreNotions.

Variable heap : ptr -> SceneObject.
Variables from dir : vec3.

(** An object counts for the ray when it reports a hit at a distance
    below FLT_MAX. *)
Definition counts (q : ptr) : bool :=
  match Intersects (heap q) from dir with
  | Some d => (d <? FLT_MAX)%flt
  | None => false
  end.

(** The distance kept by the loop is FLT_MAX or below it. *)
Definition capped (r : option ptr * float) : Prop :=
  snd r = FLT_MAX \/ (snd r <? FLT_MAX)%flt = true.

(** No two different objects of [l] that count for the ray report
    distances that [<] cannot tell apart. *)
Definition no_ties (l : list ptr) : Prop :=
  forall q1 q2 d1 d2,
    In q1 l -> In q2 l -> q1 <> q2 ->
    Intersects (heap q1) from dir = Some d1 ->
    Intersects (heap q2) from dir = Some d2 ->
    (d1 <? FLT_MAX)%flt = true -> (d2 <? FLT_MAX)%flt = true ->
    (d1 <? d2)%flt = true \/ (d2 <? d1)%flt = true.

End MoreNotions.

(** Two stores give the shader the same data when their objects answer
    alike to the intersection test, the normal and the light direction,
    have the same albedo everywhere, and the same emissive and specular
    colours at the point (0, 0, 0). *)
Definition same_shading (heap heap' : ptr -> SceneObject) : Prop :=
  forall p,
    (forall from dir,
        Intersects (heap p) from dir = Intersects (heap' p) from dir) /\
    (forall pos, GetSurfaceNormal (heap p) pos = GetSurfaceNormal (heap' p) pos) /\
    (forall pos, GetRayFrom (heap p) pos = GetRayFrom (heap' p) pos) /\
    (forall pos, albedo (GetMaterial (heap p) pos)
                 = albedo (GetMaterial (heap' p) pos)) /\
    emissive (GetMaterial (heap p) origin0)
      = emissive (GetMaterial (heap' p) origin0) /\
    specular (GetMaterial (heap p) origin0)
      = specular (GetMaterial (heap' p) origin0).

(** The pixel coordinates in the order of the two loops of [DrawScene]:
    rows from 0, and in each row columns from 0. *)
Definition pixel_grid : list (Z * Z) :=
  flat_map (fun py => map (fun px => (px, py)) (range ImageWidth))
           (range ImageHeight).

Definition coordinates (p : PutPixel) : Z * Z := fst p.

(** The three colour channels of a vector. *)
Inductive channel : Type := red | green | blue.

Definition get (c : channel) (v : vec3) : float :=
  match c with
  | red => x v
  | green => y v
  | blue => z v
  end.

(** Two stores give the shader the same data for the channel [c] when
    their objects have the same geometry and their materials agree on the
    channel [c] of the albedo everywhere and of the emissive and specular
    colours at the point (0, 0, 0). *)
Definition same_channel (c : channel) (heap heap' : ptr -> SceneObject)
    : Prop :=
  forall p,
    (forall from dir,
        Intersects (heap p) from dir = Intersects (heap' p) from dir) /\
    (forall pos, GetSurfaceNormal (heap p) pos = GetSurfaceNormal (heap' p) pos) /\
    (forall pos, GetRayFrom (heap p) pos = GetRayFrom (heap' p) pos) /\
    (forall pos, get c (albedo (GetMaterial (heap p) pos))
                 = get c (albedo (GetMaterial (heap' p) pos))) /\
    get c (emissive (GetMaterial (heap p) origin0))
      = get c (emissive (GetMaterial (heap' p) origin0)) /\
    get c (specular (GetMaterial (heap p) origin0))
      = get c (specular (GetMaterial (heap' p) origin0)).

(** The coordinate of the centre of the pixel row or column [k], as
    [DrawScene] computes it: [(float)k + .5f]. *)
Definition centre (k : Z) : float := (of_int k + half)%flt.

(** ** More scenes *)

Module Scenes.

Import Primitives Examples.

(** Two spheres one behind the other on the z axis. *)
Definition row_heap : ptr -> SceneObject :=
  store [Sphere lamp (vec 0 0 0) one; Sphere glossy (vec 0 0 (-5)) one]
        (Sphere lamp (vec 0 0 0) one).

Definition on_axis : vec3 := vec 0 0 5.
Definition along_axis : vec3 := vec 0 0 (-1).

(** The checkerboard with its odd tiles repainted: the albedo of
    [glowing], another specular colour and another emissive colour. *)
Definition dull : Material := material (vec 0 0 0) (vec 1 1 1) (vec 0 1 0).

Definition repainted_heap : ptr -> SceneObject :=
  store [TiledPlane glossy dull (vec 0 0 0) (vec 0 1 0);
         Sphere lamp (vec 0 10 0) one] board.

(** The checkerboard under a lamp without green. *)
Definition magenta : Material := material (vec 0 0 0) (vec 0 0 0) (vec 1 0 1).

Definition tinted_heap : ptr -> SceneObject :=
  store [board; Sphere magenta (vec 0 10 0) one] board.

(** The distance both twin spheres report along the shadow ray that
    starts next to [on_axis]. *)
Definition tie_distance : float := S754_finite false 16773022 (-22).

(** The colour seen above the glossy tile of the checkerboard. *)
Definition bright : float := S754_finite false 16714590 (-23).

(** A lamp of unbounded brightness above the checkerboard, and a camera
    above a dark tile whose rays all point straight down. *)
Definition sun : Material :=
  material (vec 0 0 0) (vec 0 0 0)
    (Vec3 (S754_infinity false) (S754_infinity false) (S754_infinity false)).

Definition sun_heap : ptr -> SceneObject :=
  store [board; Sphere sun (vec 0 10 0) one] board.

Definition dark_camera : Camera :=
  {| position := above_glowing; GetWorldRay _ := down |}.

(** A camera that looks down wherever [DrawScene] samples it, and up
    left of the image. *)
Definition odd_camera : Camera :=
  {| position := above_glossy;
     GetWorldRay p := if (fst p <? zero)%flt then up else down |}.

End Scenes.

(** * Properties *)

(** ** The order of binary32 numbers *)

Module OrderFacts.

Import Order.
Local Open Scope Z_scope.

Lemma compare_cont_Eq (p q : positive) :
  Pos.compare_cont Eq p q = (p ?= q)%positive.
Proof. reflexivity. Qed.

Ltac order_cases :=
  repeat match goal with
  | |- context [Z.compare ?a ?b] => destruct (Z.compare_spec a b)
  | |- context [Pos.compare ?a ?b] => destruct (Pos.compare_spec a b)
  end.

Ltac by_cases a b :=
  destruct a as [[]|[]| |[] ? ?], b as [[]|[]| |[] ? ?]; simpl;
  rewrite ?compare_cont_Eq; order_cases; simpl;
  (split; [ intro; try discriminate; repeat split; lia
          | intros (? & ? & ?); try discriminate; try reflexivity; lia ]).

(** [a < b] holds exactly when neither is NaN and [a] is below [b]. *)
Lemma ltb_below (a b : float) :
  ltb a b = true <-> is_nan a = false /\ is_nan b = false /\ below a b.
Proof. unfold ltb, SFltb, below. by_cases a b. Qed.

(** [a <= b] holds exactly when neither is NaN and [b] is not below [a]. *)
Lemma leb_below (a b : float) :
  leb a b = true <-> is_nan a = false /\ is_nan b = false /\ ~ below b a.
Proof. unfold leb, SFleb, below. by_cases a b. Qed.

Lemma ltb_not_nan (a b : float) :
  ltb a b = true -> is_nan a = false /\ is_nan b = false.
Proof. rewrite ltb_below. tauto. Qed.

Lemma ltb_false_below (a b : float) :
  is_nan a = false -> is_nan b = false -> ltb a b = false -> ~ below a b.
Proof.
  intros Ha Hb H Hab.
  assert (ltb a b = true) by (apply ltb_below; auto).
  congruence.
Qed.

Lemma ltb_irrefl (a : float) : ltb a a = false.
Proof.
  destruct (ltb a a) eqn:E; [ | reflexivity].
  apply ltb_below in E. unfold below in E. lia.
Qed.

Lemma ltb_trans (a b c : float) :
  ltb a b = true -> ltb b c = true -> ltb a c = true.
Proof.
  rewrite !ltb_below. unfold below. intros (? & ? & ?) (? & ? & ?).
  repeat split; auto; lia.
Qed.

(** [a < b] and not [c < b] put [a] below [c], unless [c] is NaN. *)
Lemma ltb_neg_trans (a b c : float) :
  ltb a b = true -> ltb c b = false -> is_nan c = false -> ltb a c = true.
Proof.
  intros Hab Hcb Hc.
  pose proof (ltb_not_nan _ _ Hab) as [Ha Hb].
  pose proof (ltb_false_below _ _ Hc Hb Hcb) as Hn.
  apply ltb_below in Hab. apply ltb_below.
  unfold below in Hab, Hn |- *. repeat split; auto; lia.
Qed.

Lemma ltb_false_trans (a b c : float) :
  ltb a b = false -> ltb c b = true -> ltb a c = false.
Proof.
  intros Hab Hcb. destruct (ltb a c) eqn:E; [ | reflexivity].
  rewrite (ltb_trans _ _ _ E Hcb) in Hab. discriminate.
Qed.

Lemma ltb_leb (a b : float) : ltb a b = true -> leb a b = true.
Proof.
  rewrite ltb_below, leb_below. unfold below.
  intros (? & ? & ?). repeat split; auto. lia.
Qed.

Lemma leb_refl (a : float) : is_nan a = false -> leb a a = true.
Proof. intro. apply leb_below. unfold below. repeat split; auto. lia. Qed.

Lemma leb_not_nan (a b : float) :
  leb a b = true -> is_nan a = false /\ is_nan b = false.
Proof. rewrite leb_below. tauto. Qed.

Lemma ltb_leb_trans (a b c : float) :
  ltb a b = true -> leb b c = true -> ltb a c = true.
Proof.
  rewrite !ltb_below, leb_below. unfold below.
  intros (? & ? & ?) (? & ? & ?). repeat split; auto; lia.
Qed.

Lemma leb_ltb_trans (a b c : float) :
  leb a b = true -> ltb b c = true -> ltb a c = true.
Proof.
  rewrite !ltb_below, leb_below. unfold below.
  intros (? & ? & ?) (? & ? & ?). repeat split; auto; lia.
Qed.

(** Without NaN, not [a < b] is [b <= a]. *)
Lemma ltb_false_leb (a b : float) :
  is_nan a = false -> is_nan b = false -> ltb a b = false -> leb b a = true.
Proof.
  intros Ha Hb H. apply leb_below. repeat split; auto.
  apply ltb_false_below; auto.
Qed.

End OrderFacts.

Import OrderFacts.

(** ** The literals and the conversion to a byte *)

(** The literals are the binary32 numbers nearest to their decimal
    values, and FLT_MAX is the largest finite one. *)
Lemma literals :
  half = (one / two)%flt /\
  eps = (one / of_int 1000)%flt /\
  FLT_MAX = SFmax_float prec emax /\
  ltb FLT_MAX (S754_infinity false) = true.
Proof. repeat split. Qed.

(** [uint8_t] truncates toward zero and is undefined out of range. *)
Lemma uint8_t_values :
  uint8_t (of_int 3 / two)%flt = Some 1%Z /\
  uint8_t (SFopp half) = Some 0%Z /\
  uint8_t (f255 + half)%flt = Some 255%Z /\
  uint8_t (of_int 256) = None /\
  uint8_t (of_int (-1)) = None /\
  uint8_t S754_nan = None.
Proof. repeat split; vm_compute; reflexivity. Qed.

(** ** The scene query *)

Section NearestHit.

Variable heap : ptr -> SceneObject.
Variables from dir : vec3.

(** A property of every hit reported in [l ++ [o]] follows from the
    property for [l] and for [o]. *)
Lemma hits_snoc (l : list ptr) (o : ptr) (P : ptr -> float -> Prop) :
  (forall q d', In q l -> hit heap from dir q = Some d' -> P q d') ->
  (forall d', hit heap from dir o = Some d' -> P o d') ->
  forall q d', In q (l ++ [o]) -> hit heap from dir q = Some d' -> P q d'.
Proof.
  intros Hl Ho q d' [Hq | [<- | []]]%in_app_or Hq'; auto.
Qed.

(** What [o] reports, once it is known to be [Some dx]. *)
Ltac reported Ho :=
  let d' := fresh "d'" in
  let E := fresh "E" in
  intros d' E; rewrite Ho in E; injection E as <-.

(** One turn of the loop keeps the nearest hit of the objects seen. *)
Lemma nearest_step (l : list ptr) (r : option ptr * float) (o : ptr) :
  nearest heap from dir l r ->
  nearest heap from dir (l ++ [o])
    (FindFirstIntersector_step heap from dir r o).
Proof.
  destruct r as [[p|] d]; unfold FindFirstIntersector_step;
    change (Intersects (heap o) from dir) with (hit heap from dir o);
    destruct (hit heap from dir o) as [dx|] eqn:Ho.
  - (* a current nearest object, and [o] is hit *)
    intros (l1 & l2 & -> & Hp & Hd & Hmin & Hfirst).
    destruct (ltb dx d) eqn:Hlt.
    + exists (l1 ++ p :: l2), []. repeat split; auto.
      * eapply ltb_trans; eauto.
      * apply hits_snoc.
        -- intros q d' Hq Hq'. eapply ltb_false_trans; eauto.
        -- reported Ho. apply ltb_irrefl.
      * intros q d' Hq Hq'. destruct (is_nan d') eqn:Hn; auto. left.
        eapply ltb_neg_trans; eauto.
    + exists l1, (l2 ++ [o]). split; [ now rewrite <- app_assoc | ].
      repeat split; auto.
      apply hits_snoc; auto. reported Ho. exact Hlt.
  - (* a current nearest object, and [o] is missed *)
    intros (l1 & l2 & -> & Hp & Hd & Hmin & Hfirst).
    exists l1, (l2 ++ [o]). split; [ now rewrite <- app_assoc | ].
    repeat split; auto.
    apply hits_snoc; auto. rewrite Ho. discriminate.
  - (* nothing below FLT_MAX so far, and [o] is hit *)
    intros [-> Hnone]. destruct (ltb dx FLT_MAX) eqn:Hlt.
    + exists l, []. repeat split; auto.
      * apply hits_snoc.
        -- intros q d' Hq Hq'. eapply ltb_false_trans; eauto.
        -- reported Ho. apply ltb_irrefl.
      * intros q d' Hq Hq'. destruct (is_nan d') eqn:Hn; auto. left.
        eapply ltb_neg_trans; eauto.
    + split; auto. apply hits_snoc; auto. reported Ho. exact Hlt.
  - (* nothing below FLT_MAX so far, and [o] is missed *)
    intros [-> Hnone]. split; auto.
    apply hits_snoc; auto. rewrite Ho. discriminate.
Qed.

Lemma nearest_fold (l : list ptr) :
  nearest heap from dir l
    (fold_left (FindFirstIntersector_step heap from dir) l (None, FLT_MAX)).
Proof.
  induction l as [| o l IH] using rev_ind.
  - simpl. split; auto. intros q d' [].
  - rewrite fold_left_app. simpl. apply nearest_step, IH.
Qed.

End NearestHit.

(** C2 (as amended).  For every ray and every list of scene objects,
    [FindFirstIntersector] returns the nearest hit among the objects that
    report a distance below FLT_MAX: the object returned reports the
    distance returned, no object reports a smaller one, and every
    object inserted before it reports a strictly larger one (or NaN).
    When no object reports a distance below FLT_MAX the pointer returned
    is empty and the distance is FLT_MAX.  On an exactly equal distance
    the earlier object is kept: a later object that reports the distance
    of the current nearest one does not replace it. *)
Theorem FindFirstIntersector_nearest
    (heap : ptr -> SceneObject) (sceneObjects : list ptr) (from dir : vec3) :
  nearest heap from dir sceneObjects
    (FindFirstIntersector heap sceneObjects from dir) /\
  (forall earlier later d,
      Intersects (heap later) from dir = Some d ->
      FindFirstIntersector_step heap from dir (Some earlier, d) later
        = (Some earlier, d)).
Proof.
  split.
  - apply nearest_fold.
  - intros earlier later d Hd. unfold FindFirstIntersector_step.
    rewrite Hd, ltb_irrefl. reflexivity.
Qed.

(** C2 as stated fails for a backdrop that reports a hit at distance
    FLT_MAX: it is the only object hit, so its distance is the minimum
    over the objects that report a hit, and the pointer returned is
    empty. *)
Lemma FindFirstIntersector_backdrop :
  let from := Examples.vec 0 0 5 in
  let dir := Examples.vec 0 0 (-1) in
  hit Examples.backdrop_heap from dir 0%nat = Some FLT_MAX /\
  (forall q d', In q Examples.one_object ->
     hit Examples.backdrop_heap from dir q = Some d' ->
     ltb d' FLT_MAX = false) /\
  FindFirstIntersector Examples.backdrop_heap Examples.one_object from dir
    = (None, FLT_MAX).
Proof.
  repeat split.
  intros q d' [<- | []] [= <-]. reflexivity.
Qed.

(** ** The writer monad *)

Lemma bind_fst {A B} (m : Traced A) (f : A -> Traced B) :
  fst (bind m f) = fst (f (fst m)).
Proof. unfold bind. destruct (f (fst m)). reflexivity. Qed.

Lemma bind_snd {A B} (m : Traced A) (f : A -> Traced B) :
  snd (bind m f) = snd m ++ snd (f (fst m)).
Proof. unfold bind. destruct (f (fst m)). reflexivity. Qed.

Lemma foldT_fst {A B} (f : A -> B -> Traced A) (l : list B) (a : A) :
  fst (foldT f l a) = fold_left (fun a b => fst (f a b)) l a.
Proof.
  revert a. induction l as [| b l IH]; intro a; simpl.
  - reflexivity.
  - rewrite bind_fst. apply IH.
Qed.

(** When each turn records one ray that does not depend on the
    accumulator, the fold records these rays in the order of the list. *)
Lemma foldT_snd {A B} (f : A -> B -> Traced A) (g : B -> Ray)
    (l : list B) (a : A) :
  (forall a b, snd (f a b) = [g b]) ->
  snd (foldT f l a) = map g l.
Proof.
  intro Hf. revert a. induction l as [| b l IH]; intro a; simpl.
  - reflexivity.
  - rewrite bind_snd, Hf, IH. reflexivity.
Qed.

Lemma fold_left_filter {A B} (p : B -> bool) (g : A -> B -> A)
    (l : list B) (a : A) :
  fold_left (fun a b => if p b then g a b else a) l a
  = fold_left g (filter p l) a.
Proof.
  revert a. induction l as [| b l IH]; intro a; simpl.
  - reflexivity.
  - destruct (p b); simpl; apply IH.
Qed.

(** Functions that agree on the elements of a list fold alike. *)
Lemma fold_left_agree {A B} (f g : A -> B -> A) (l : list B) (a : A) :
  (forall a b, In b l -> f a b = g a b) ->
  fold_left f l a = fold_left g l a.
Proof.
  revert a. induction l as [| b l IH]; intros a H; simpl.
  - reflexivity.
  - rewrite H by (left; reflexivity). apply IH.
    intros a' b' Hb'. apply H. right. exact Hb'.
Qed.

Lemma same_object_true (a : option ptr) (b : ptr) :
  same_object a b = true <-> a = Some b.
Proof.
  destruct a as [p|]; simpl.
  - rewrite Nat.eqb_eq. split; congruence.
  - split; discriminate.
Qed.

(** ** The shader *)

Section Shader.

Variable heap : ptr -> SceneObject.
Variable sceneObjects : list ptr.

Local Open Scope vec_scope.

(** The colour after one turn of the loop over the lights. *)
Lemma TraceRay_light_color
    (raydir : vec3) (obj : ptr) (interPos normal albedo color : vec3)
    (light : ptr) :
  fst (TraceRay_light heap sceneObjects raydir obj interPos normal albedo
         color light)
  = if unoccluded heap sceneObjects interPos light then
      color + diffuse_term heap interPos normal albedo light
        + specular_term (specular (GetMaterial (heap obj) origin0))
            (specular_dot heap raydir interPos normal light)
    else color.
Proof.
  unfold TraceRay_light, unoccluded, occluder, shadow_ray, query.
  rewrite bind_fst. cbn [fst snd].
  fold (lightDir heap interPos light).
  destruct (FindFirstIntersector heap sceneObjects
              (interPos + lightDir heap interPos light *: eps)
              (lightDir heap interPos light)) as [occ dis].
  cbn [fst]. rewrite negb_involutive.
  destruct (same_object occ light); reflexivity.
Qed.

(** The ray recorded by one turn of the loop over the lights. *)
Lemma TraceRay_light_ray
    (raydir : vec3) (obj : ptr) (interPos normal albedo color : vec3)
    (light : ptr) :
  snd (TraceRay_light heap sceneObjects raydir obj interPos normal albedo
         color light)
  = [shadow_ray heap interPos light].
Proof.
  unfold TraceRay_light, shadow_ray, query.
  rewrite bind_snd. cbn [fst snd].
  fold (lightDir heap interPos light).
  destruct (FindFirstIntersector heap sceneObjects
              (interPos + lightDir heap interPos light *: eps)
              (lightDir heap interPos light)) as [occ dis].
  destruct (negb (negb (same_object occ light))); reflexivity.
Qed.

(** [TraceRay] without the record of the rays. *)
Lemma TraceRay_color (rayorig raydir : vec3) (depth : Z) :
  TraceRay heap sceneObjects rayorig raydir depth
  = match FindFirstIntersector heap sceneObjects rayorig raydir with
    | (None, _) => None
    | (Some obj, minDistance) =>
        let interPos := rayorig + normalize raydir *: minDistance in
        let normal := GetSurfaceNormal (heap obj) interPos in
        let albedo := albedo (GetMaterial (heap obj) interPos) in
        Some (fold_left
                (fun color light =>
                   fst (TraceRay_light heap sceneObjects raydir obj
                          interPos normal albedo color light))
                sceneObjects (emissive (GetMaterial (heap obj) origin0)))
    end.
Proof.
  unfold TraceRay, TraceRay_traced, query. rewrite bind_fst. cbn [fst].
  destruct (FindFirstIntersector heap sceneObjects rayorig raydir)
    as [[obj|] minDistance]; [ | reflexivity].
  rewrite bind_fst. cbn [fst ret]. rewrite foldT_fst. reflexivity.
Qed.

Lemma TraceRay_rays (rayorig raydir : vec3) (depth : Z) :
  TraceRay_queries heap sceneObjects rayorig raydir depth
  = (rayorig, raydir)
    :: match FindFirstIntersector heap sceneObjects rayorig raydir with
       | (None, _) => []
       | (Some obj, minDistance) =>
           map (shadow_ray heap (rayorig + normalize raydir *: minDistance))
               sceneObjects
       end.
Proof.
  unfold TraceRay_queries, TraceRay_traced, query.
  rewrite bind_snd. cbn [fst snd app]. f_equal.
  destruct (FindFirstIntersector heap sceneObjects rayorig raydir)
    as [[obj|] minDistance]; [ | reflexivity].
  rewrite bind_snd. cbn [snd ret]. rewrite app_nil_r.
  apply foldT_snd. intros. apply TraceRay_light_ray.
Qed.

End Shader.

Section ShaderClaims.

Variable heap : ptr -> SceneObject.
Variable sceneObjects : list ptr.

Local Open Scope vec_scope.

(** C3.  For every candidate light the diffuse and specular terms are
    added when the object nearest along the shadow ray is the light
    itself, by identity, and the colour is left as it is when the
    nearest object is any other object or there is none; so the colour
    [TraceRay] returns is the emissive colour plus the terms of exactly
    the lights of the scene that pass this test, in scene order. *)
Theorem TraceRay_lights_by_identity
    (rayorig raydir : vec3) (depth : Z) (obj : ptr) (minDistance : float) :
  FindFirstIntersector heap sceneObjects rayorig raydir
    = (Some obj, minDistance) ->
  let interPos := rayorig + normalize raydir *: minDistance in
  let normal := GetSurfaceNormal (heap obj) interPos in
  let albedo := albedo (GetMaterial (heap obj) interPos) in
  let turn color light :=
    fst (TraceRay_light heap sceneObjects raydir obj interPos normal albedo
           color light) in
  let lit color light :=
    color + diffuse_term heap interPos normal albedo light
      + specular_term (specular (GetMaterial (heap obj) origin0))
          (specular_dot heap raydir interPos normal light) in
  (forall color light,
      occluder heap sceneObjects interPos light = Some light ->
      turn color light = lit color light) /\
  (forall color light,
      occluder heap sceneObjects interPos light <> Some light ->
      turn color light = color) /\
  TraceRay heap sceneObjects rayorig raydir depth
    = Some (fold_left lit
              (filter (fun light =>
                         same_object
                           (occluder heap sceneObjects interPos light) light)
                      sceneObjects)
              (emissive (GetMaterial (heap obj) origin0))).
Proof.
  intros Hhit interPos normal alb turn lit. repeat split.
  - intros color light Hocc. unfold turn.
    rewrite TraceRay_light_color. unfold unoccluded.
    apply same_object_true in Hocc. rewrite Hocc. reflexivity.
  - intros color light Hocc. unfold turn.
    rewrite TraceRay_light_color. unfold unoccluded.
    destruct (same_object _ light) eqn:E; [ | reflexivity].
    apply same_object_true in E. contradiction.
  - rewrite TraceRay_color, Hhit. cbv zeta. f_equal.
    rewrite <- fold_left_filter. apply fold_left_agree.
    intros color light _. apply TraceRay_light_color.
Qed.

(** C6.  The rays [TraceRay] hands to the scene query are the primary
    ray and then, for every candidate light in scene order, the shadow
    ray that starts at the intersection point moved by 0.001 times the
    normalized light direction and runs along that same direction. *)
Theorem TraceRay_shadow_rays
    (rayorig raydir : vec3) (depth : Z) (obj : ptr) (minDistance : float) :
  FindFirstIntersector heap sceneObjects rayorig raydir
    = (Some obj, minDistance) ->
  let interPos := rayorig + normalize raydir *: minDistance in
  TraceRay_queries heap sceneObjects rayorig raydir depth
  = (rayorig, raydir)
    :: map (fun light =>
              let lightDir := normalize (GetRayFrom (heap light) interPos) in
              (interPos + lightDir *: eps, lightDir))
           sceneObjects.
Proof.
  intros Hhit interPos. rewrite TraceRay_rays, Hhit. reflexivity.
Qed.

End ShaderClaims.

(** C4.  [TraceRay] adds the diffuse term of every unoccluded candidate
    light.  When the light is unoccluded, the colour [TraceRay] returns
    is the colour accumulated over the lights before it, plus the diffuse
    term max(dot(normal, lightDir), 0) times the albedo of the hit point
    times the emissive colour of the light (of its material at the
    origin, as main.cpp reads it), channel by channel, plus the specular
    term, taken through the turns of the lights after it.  lightDir is
    the normalized direction that the light gives from the intersection
    point. *)
Theorem TraceRay_diffuse
    (heap : ptr -> SceneObject) (sceneObjects : list ptr)
    (rayorig raydir : vec3) (depth : Z) (obj : ptr) (minDistance : float)
    (l1 l2 : list ptr) (light : ptr) :
  sceneObjects = l1 ++ light :: l2 ->
  FindFirstIntersector heap sceneObjects rayorig raydir
    = (Some obj, minDistance) ->
  let interPos := (rayorig + normalize raydir *: minDistance)%vec in
  let normal := GetSurfaceNormal (heap obj) interPos in
  let albedo := albedo (GetMaterial (heap obj) interPos) in
  let lightDir := normalize (GetRayFrom (heap light) interPos) in
  unoccluded heap sceneObjects interPos light = true ->
  let turn color l :=
    if unoccluded heap sceneObjects interPos l then
      (color + diffuse_term heap interPos normal albedo l
       + specular_term (specular (GetMaterial (heap obj) origin0))
           (specular_dot heap raydir interPos normal l))%vec
    else color in
  let before :=
    fold_left turn l1 (emissive (GetMaterial (heap obj) origin0)) in
  let diffuse :=
    (albedo * emissive (GetMaterial (heap light) origin0)
       *: std_max (dot normal lightDir) zero)%vec in
  TraceRay heap sceneObjects rayorig raydir depth
  = Some (fold_left turn l2
            (before + diffuse
             + specular_term (specular (GetMaterial (heap obj) origin0))
                 (specular_dot heap raydir interPos normal light))%vec).
Proof.
  intros Hsplit Hhit interPos normal alb lightDir Hun turn before diffuse.
  rewrite TraceRay_color, Hhit. cbv zeta. f_equal.
  fold interPos. fold normal. fold alb.
  rewrite (fold_left_agree _ turn)
    by (intros color l _; apply TraceRay_light_color).
  rewrite Hsplit at 1. rewrite fold_left_app. cbn [fold_left].
  fold before. unfold turn at 2. rewrite Hun. reflexivity.
Qed.

(** C9.  The colour returned by [TraceRay], and the rays it queries, do
    not depend on the depth argument nor on the reflectance of any
    material: for all depths [d1], [d2] and every way [r] of replacing
    the reflectances, the results are the same.  At every depth the rays
    queried are the primary ray and at most one shadow ray for each scene
    object: no reflected ray is ever traced. *)
Theorem TraceRay_ignores_depth_and_reflectance
    (heap : ptr -> SceneObject) (sceneObjects : list ptr)
    (rayorig raydir : vec3) (d1 d2 : Z) (r : ptr -> vec3 -> float) :
  TraceRay heap sceneObjects rayorig raydir d1
    = TraceRay heap sceneObjects rayorig raydir d2 /\
  TraceRay (with_reflectance heap r) sceneObjects rayorig raydir d1
    = TraceRay heap sceneObjects rayorig raydir d2 /\
  TraceRay_queries (with_reflectance heap r) sceneObjects rayorig raydir d1
    = TraceRay_queries heap sceneObjects rayorig raydir d2 /\
  exists shadows,
    TraceRay_queries heap sceneObjects rayorig raydir d2
      = (rayorig, raydir) :: shadows /\
    (length shadows <= length sceneObjects)%nat.
Proof.
  split; [reflexivity | ]. split; [reflexivity | ]. split; [reflexivity | ].
  rewrite TraceRay_rays. eexists. split; [reflexivity | ].
  destruct (FindFirstIntersector heap sceneObjects rayorig raydir)
    as [[obj|] minDistance]; simpl.
  - rewrite length_map. apply Nat.le_refl.
  - apply Nat.le_0_l.
Qed.

(** ** The empty pointer *)

Section NullPointer.

Variable heap : ptr -> SceneObject.
Variable sceneObjects : list ptr.

Lemma FindFirstIntersector_empty (from dir : vec3) :
  fst (FindFirstIntersector heap sceneObjects from dir) = None <->
  forall q d, In q sceneObjects -> Intersects (heap q) from dir = Some d ->
              ltb d FLT_MAX = false.
Proof.
  pose proof (nearest_fold heap from dir sceneObjects) as H.
  fold (FindFirstIntersector heap sceneObjects from dir) in H.
  destruct (FindFirstIntersector heap sceneObjects from dir) as [[p|] d];
    simpl in *.
  - destruct H as (l1 & l2 & Hl & Hp & Hd & _). split; [discriminate | ].
    intro Hnone. rewrite (Hnone p d) in Hd; [discriminate | | exact Hp].
    rewrite Hl. apply in_elt.
  - destruct H as [_ H]. split; auto.
Qed.

Lemma TraceRay_undefined (rayorig raydir : vec3) (depth : Z) :
  TraceRay heap sceneObjects rayorig raydir depth = None <->
  fst (FindFirstIntersector heap sceneObjects rayorig raydir) = None.
Proof.
  rewrite TraceRay_color.
  destruct (FindFirstIntersector heap sceneObjects rayorig raydir)
    as [[p|] d]; simpl; split; auto; discriminate.
Qed.

(** C10 (as amended).  If no scene object intersects the ray,
    [FindFirstIntersector] returns the empty pointer and FLT_MAX.
    [TraceRay] uses the pointer without a test, so it has no defined
    result exactly when the pointer returned for the primary ray is
    empty; and that is excluded exactly when some scene object reports
    a hit at a distance below FLT_MAX. *)
Theorem TraceRay_needs_hit_below_FLT_MAX
    (rayorig raydir : vec3) (depth : Z) :
  ((forall q, In q sceneObjects ->
              Intersects (heap q) rayorig raydir = None) ->
   FindFirstIntersector heap sceneObjects rayorig raydir = (None, FLT_MAX))
  /\
  (TraceRay heap sceneObjects rayorig raydir depth = None <->
   fst (FindFirstIntersector heap sceneObjects rayorig raydir) = None)
  /\
  ((exists q d, In q sceneObjects /\
                Intersects (heap q) rayorig raydir = Some d /\
                ltb d FLT_MAX = true) <->
   exists color, TraceRay heap sceneObjects rayorig raydir depth = Some color).
Proof.
  split; [ | split].
  - intro Hmiss.
    pose proof (nearest_fold heap rayorig raydir sceneObjects) as H.
    fold (FindFirstIntersector heap sceneObjects rayorig raydir) in H.
    destruct (FindFirstIntersector heap sceneObjects rayorig raydir)
      as [[p|] d]; simpl in H.
    + destruct H as (l1 & l2 & Hl & Hp & _).
      unfold hit in Hp. rewrite Hmiss in Hp; [discriminate | ].
      rewrite Hl. apply in_elt.
    + destruct H as [-> _]. reflexivity.
  - apply TraceRay_undefined.
  - pose proof (TraceRay_undefined rayorig raydir depth) as Hu.
    pose proof (FindFirstIntersector_empty rayorig raydir) as He.
    split.
    + intros (q & d & Hq & Hd & Hlt).
      destruct (TraceRay heap sceneObjects rayorig raydir depth) as [c|];
        [eauto | ].
      assert (Hn : ltb d FLT_MAX = false)
        by (apply (proj1 He (proj1 Hu eq_refl) q d Hq Hd)).
      congruence.
    + intros (c & Hc).
      pose proof (nearest_fold heap rayorig raydir sceneObjects) as H.
      fold (FindFirstIntersector heap sceneObjects rayorig raydir) in H.
      destruct (FindFirstIntersector heap sceneObjects rayorig raydir)
        as [[p|] d]; simpl in H.
      * destruct H as (l1 & l2 & Hl & Hp & Hd & _).
        exists p, d. repeat split; auto. rewrite Hl. apply in_elt.
      * rewrite (proj2 Hu eq_refl) in Hc. discriminate.
Qed.

End NullPointer.

(** C10 as stated fails for the backdrop: the ray hits a scene object,
    and [TraceRay] still goes through the empty pointer. *)
Lemma TraceRay_backdrop_undefined :
  let from := Examples.vec 0 0 5 in
  let dir := Examples.vec 0 0 (-1) in
  (exists q d, In q Examples.one_object /\
     Intersects (Examples.backdrop_heap q) from dir = Some d) /\
  TraceRay Examples.backdrop_heap Examples.one_object from dir 0 = None.
Proof.
  split.
  - exists 0%nat, FLT_MAX. split; [left | ]; reflexivity.
  - vm_compute. reflexivity.
Qed.

(** ** The direction handed to the objects *)

(** C8 (as amended).  [FindFirstIntersector] hands the direction to the
    objects as it receives it.  When every object of the scene normalizes
    the direction internally, and normalizing the direction a second time
    does not change it, the object and the distance returned are the same
    whether or not the caller normalized the direction. *)
Theorem FindFirstIntersector_normalized_direction
    (heap : ptr -> SceneObject) (sceneObjects : list ptr) (from dir : vec3) :
  (forall q, In q sceneObjects -> normalizes_internally (heap q)) ->
  normalize (normalize dir) = normalize dir ->
  FindFirstIntersector heap sceneObjects from (normalize dir)
    = FindFirstIntersector heap sceneObjects from dir.
Proof.
  intros Hobj Hidem. unfold FindFirstIntersector.
  apply fold_left_agree. intros [p d] q Hq.
  unfold FindFirstIntersector_step.
  destruct (Hobj q Hq) as [test Htest].
  rewrite (Htest from (normalize dir)), (Htest from dir), Hidem.
  reflexivity.
Qed.

(** C8 as stated fails twice over.  A sphere whose test uses the direction
    as given reports the distance 2 along (0, 0, -2) and 4 along its
    normalization.  And the sphere of the specification, which normalizes
    internally, reports distances one unit in the last place apart along
    (0, 1, 1) and along its normalization, because normalizing that
    direction twice does not give the vector obtained by normalizing it
    once. *)
Lemma FindFirstIntersector_direction_matters :
  (let from := Examples.vec 0 0 5 in
   let dir := Examples.vec 0 0 (-2) in
   FindFirstIntersector Examples.raw_heap Examples.one_object from dir
     = (Some 0%nat, of_int 2) /\
   FindFirstIntersector Examples.raw_heap Examples.one_object from
       (normalize dir)
     = (Some 0%nat, of_int 4)) /\
  (let from := Examples.vec 0 0 0 in
   let dir := Examples.vec 0 1 1 in
   normalizes_internally (Examples.diagonal_heap 0%nat) /\
   FindFirstIntersector Examples.diagonal_heap Examples.one_object from dir
     = (Some 0%nat, S754_finite false 13600621 (-21)) /\
   FindFirstIntersector Examples.diagonal_heap Examples.one_object from
       (normalize dir)
     = (Some 0%nat, S754_finite false 13600620 (-21))).
Proof.
  split; [split | split; [ | split]].
  - vm_compute. reflexivity.
  - vm_compute. reflexivity.
  - exists (Primitives.Sphere_hit (Examples.vec 0 6 6) two).
    intros from dir. reflexivity.
  - vm_compute. reflexivity.
  - vm_compute. reflexivity.
Qed.

(** ** The render driver *)

(** A channel between 0 and 255 converts to a byte. *)
Lemma uint8_t_defined (a : float) :
  between zero a f255 ->
  exists n, uint8_t a = Some n /\ (0 <= n <= 255)%Z.
Proof.
  intros [H0 H255]. unfold uint8_t.
  assert (H1 : ltb (of_int (-1)) a = true).
  { apply ltb_leb_trans with zero; [vm_compute; reflexivity | exact H0]. }
  assert (H2 : ltb a (of_int 256) = true).
  { apply leb_ltb_trans with f255; [exact H255 | vm_compute; reflexivity]. }
  rewrite H1, H2. cbn [andb]. eexists. split; [reflexivity | ].
  pose proof (filter_length_le (fun k => leb (of_int (Z.of_nat k)) a)
                (seq 1 255)) as Hle.
  rewrite length_seq in Hle. lia.
Qed.

(** The clamp written with comparisons honours the contract of [clamp]
    for every float, NaN included. *)
Lemma clamp1_between (a lo hi : float) :
  leb lo hi = true -> between lo (Examples.clamp1 a lo hi) hi.
Proof.
  intro Hlh. destruct (leb_not_nan _ _ Hlh) as [Hlo Hhi].
  unfold between, Examples.clamp1, Examples.min1, Examples.max1.
  destruct (ltb lo a) eqn:E1.
  - destruct (ltb a hi) eqn:E2; split;
      auto using ltb_leb, leb_refl.
  - destruct (ltb lo hi) eqn:E2; split; auto using ltb_leb, leb_refl.
Qed.

Lemma clamp_clamps : clamps Examples.clamp.
Proof.
  intros a lo hi Hx Hy Hz. unfold Examples.clamp. cbn [x y z].
  auto using clamp1_between.
Qed.

Lemma range_bounds (n z : Z) : In z (range n) -> (0 <= z < n)%Z.
Proof.
  unfold range. rewrite in_map_iff. intros (k & <- & Hk).
  apply in_seq in Hk. lia.
Qed.

Lemma length_range (n : Z) : length (range n) = Z.to_nat n.
Proof. unfold range. rewrite length_map, length_seq. reflexivity. Qed.

Lemma length_grid {A B} (rows : list A) (cols : list B) :
  length (flat_map (fun r => map (fun c => (c, r)) cols) rows)
  = (length rows * length cols)%nat.
Proof.
  induction rows as [| r rows IH]; simpl.
  - reflexivity.
  - rewrite length_app, length_map, IH. reflexivity.
Qed.

Lemma for_each_defined {A B} (f : A -> option B) (P : B -> Prop) (l : list A) :
  (forall a, In a l -> exists b, f a = Some b /\ P b) ->
  exists bs, for_each f l = Some bs /\ Forall P bs /\ length bs = length l.
Proof.
  induction l as [| a l IH]; intro H; simpl.
  - exists []. auto.
  - destruct (H a (or_introl eq_refl)) as (b & Hb & HP).
    destruct IH as (bs & Hbs & HF & Hlen).
    { intros a' Ha'. apply H. right. exact Ha'. }
    rewrite Hb, Hbs. exists (b :: bs). simpl. auto.
Qed.


(** ** The material of the hit point *)

(** [TraceRay] and its reading by the specification agree whenever the
    hit object has the same material at the intersection point and at
    the origin, as a sphere has. *)
Lemma TraceRay_hit_material_uniform
    (heap : ptr -> SceneObject) (sceneObjects : list ptr)
    (rayorig raydir : vec3) (depth : Z) :
  (forall obj minDistance,
      FindFirstIntersector heap sceneObjects rayorig raydir
        = (Some obj, minDistance) ->
      GetMaterial (heap obj) (rayorig + normalize raydir *: minDistance)%vec
        = GetMaterial (heap obj) origin0) ->
  TraceRay heap sceneObjects rayorig raydir depth
    = TraceRay_hit_material heap sceneObjects rayorig raydir depth.
Proof.
  intro Hsame. rewrite TraceRay_color. unfold TraceRay_hit_material.
  destruct (FindFirstIntersector heap sceneObjects rayorig raydir)
    as [[obj|] minDistance] eqn:Hhit; [ | reflexivity].
  cbv zeta. rewrite (Hsame obj minDistance eq_refl). f_equal.
  apply fold_left_agree. intros color light _.
  rewrite TraceRay_light_color. reflexivity.
Qed.

(** C1 fails on a checkerboard.  The ray meets the board on a glowing
    tile, whose material has emissive colour (0.5, 0, 0) and no specular
    colour, while the tile at the origin is glossy; [TraceRay] starts from
    the emissive colour of the tile at the origin and multiplies the
    specular term by the specular colour of that tile, and returns a grey
    where the material of the hit point gives (0.5, 0, 0). *)
Theorem TraceRay_material_at_origin :
  let heap := Examples.board_heap in
  let scene := Examples.two_objects in
  let rayorig := Examples.above_glowing in
  let raydir := Examples.down in
  let grey := S754_finite false 16368018 (-24) in
  FindFirstIntersector heap scene rayorig raydir = (Some 0%nat, of_int 4) /\
  GetMaterial (heap 0%nat) Examples.on_glowing = Examples.glowing /\
  GetMaterial (heap 0%nat) origin0 = Examples.glossy /\
  TraceRay heap scene rayorig raydir 0 = Some (Vec3 grey grey grey) /\
  TraceRay_hit_material heap scene rayorig raydir 0
    = Some (Vec3 half zero zero).
Proof.
  cbv zeta. split; [ | split; [ | split; [ | split]]];
    vm_compute; reflexivity.
Qed.

(** [TraceRay] and its reading with the specular colour of the hit point
    agree whenever the hit object has the same specular colour at the
    intersection point and at the origin. *)
Lemma TraceRay_hit_specular_uniform
    (heap : ptr -> SceneObject) (sceneObjects : list ptr)
    (rayorig raydir : vec3) (depth : Z) :
  (forall obj minDistance,
      FindFirstIntersector heap sceneObjects rayorig raydir
        = (Some obj, minDistance) ->
      specular
        (GetMaterial (heap obj) (rayorig + normalize raydir *: minDistance)%vec)
      = specular (GetMaterial (heap obj) origin0)) ->
  TraceRay heap sceneObjects rayorig raydir depth
    = TraceRay_hit_specular heap sceneObjects rayorig raydir depth.
Proof.
  intro Hsame. rewrite TraceRay_color. unfold TraceRay_hit_specular.
  destruct (FindFirstIntersector heap sceneObjects rayorig raydir)
    as [[obj|] minDistance] eqn:Hhit; [ | reflexivity].
  cbv zeta. rewrite (Hsame obj minDistance eq_refl). f_equal.
  apply fold_left_agree. intros color light _.
  rewrite TraceRay_light_color. reflexivity.
Qed.

(** C5 fails on the checkerboard, by the defect of C1.  The ray meets the
    board on a glowing tile, whose material has no specular colour, and
    the lamp is unoccluded.  The square of the raw dot product of the
    reflected ray with the light direction is about 0.9756; [TraceRay]
    multiplies it by the specular colour of the tile at the origin, which
    is glossy, and returns a grey, where the specular colour of the hit
    material gives black. *)
Theorem TraceRay_specular :
  let heap := Examples.board_heap in
  let scene := Examples.two_objects in
  let rayorig := Examples.above_glowing in
  let raydir := Examples.down in
  let interPos := Examples.on_glowing in
  let d := specular_dot heap raydir interPos Examples.up 1%nat in
  let grey := S754_finite false 16368018 (-24) in
  FindFirstIntersector heap scene rayorig raydir = (Some 0%nat, of_int 4) /\
  unoccluded heap scene interPos 0%nat = false /\
  unoccluded heap scene interPos 1%nat = true /\
  specular (GetMaterial (heap 0%nat) interPos) = Examples.vec 0 0 0 /\
  specular (GetMaterial (heap 0%nat) origin0) = Examples.vec 1 1 1 /\
  (d * d)%flt = grey /\
  TraceRay heap scene rayorig raydir 0 = Some (Vec3 grey grey grey) /\
  TraceRay_hit_specular heap scene rayorig raydir 0
    = Some (Examples.vec 0 0 0).
Proof.
  cbv zeta. repeat (split; [vm_compute; reflexivity | ]).
  vm_compute. reflexivity.
Qed.

(** ** The theorems at work on the example scenes *)

(** Of two spheres in the same place the first one is returned. *)
Lemma FindFirstIntersector_nearest_witness :
  let from := Examples.vec 0 0 5 in
  let dir := Examples.vec 0 0 (-1) in
  Intersects (Examples.twin_heap 0%nat) from dir = Some (of_int 4) /\
  Intersects (Examples.twin_heap 1%nat) from dir = Some (of_int 4) /\
  FindFirstIntersector_step Examples.twin_heap from dir
    (Some 0%nat, of_int 4) 1%nat = (Some 0%nat, of_int 4) /\
  FindFirstIntersector Examples.twin_heap Examples.two_objects from dir
    = (Some 0%nat, of_int 4).
Proof.
  intros from dir.
  assert (H1 : Intersects (Examples.twin_heap 1%nat) from dir
               = Some (of_int 4))
    by (vm_compute; reflexivity).
  split; [vm_compute; reflexivity | ]. split; [exact H1 | ]. split.
  - exact (proj2 (FindFirstIntersector_nearest Examples.twin_heap
                    Examples.two_objects from dir) 0%nat 1%nat (of_int 4) H1).
  - vm_compute. reflexivity.
Defined.

(** Above the glossy tile the lamp is the only light that passes the
    test: the colour is its two terms added to black. *)
Lemma TraceRay_lights_by_identity_witness :
  FindFirstIntersector Examples.board_heap Examples.two_objects
    Examples.above_glossy Examples.down = (Some 0%nat, of_int 4) /\
  TraceRay Examples.board_heap Examples.two_objects
    Examples.above_glossy Examples.down 0
  = Some (origin0
          + diffuse_term Examples.board_heap Examples.on_glossy Examples.up
              (Examples.vec 1 1 1) 1%nat
          + specular_term (Examples.vec 1 1 1)
              (specular_dot Examples.board_heap Examples.down
                 Examples.on_glossy Examples.up 1%nat))%vec.
Proof.
  assert (H : FindFirstIntersector Examples.board_heap Examples.two_objects
                Examples.above_glossy Examples.down = (Some 0%nat, of_int 4))
    by (vm_compute; reflexivity).
  split; [exact H | ].
  destruct (TraceRay_lights_by_identity Examples.board_heap
              Examples.two_objects Examples.above_glossy Examples.down 0
              0%nat (of_int 4) H) as (_ & _ & ->).
  vm_compute. reflexivity.
Defined.

(** Above the glossy tile the board comes first and is no light, and the
    lamp is unoccluded: the colour is black before the turn of the lamp,
    and black plus the two terms of the lamp after it. *)
Lemma TraceRay_diffuse_witness :
  Examples.two_objects = [0%nat] ++ 1%nat :: [] /\
  unoccluded Examples.board_heap Examples.two_objects Examples.on_glossy 1%nat
    = true /\
  TraceRay Examples.board_heap Examples.two_objects
    Examples.above_glossy Examples.down 0
  = Some (Examples.vec 0 0 0
          + Examples.vec 1 1 1 * Examples.vec 1 1 1
              *: std_max (dot Examples.up
                            (normalize (GetRayFrom (Examples.board_heap 1%nat)
                                          Examples.on_glossy))) zero
          + specular_term (Examples.vec 1 1 1)
              (specular_dot Examples.board_heap Examples.down
                 Examples.on_glossy Examples.up 1%nat))%vec.
Proof.
  assert (H : FindFirstIntersector Examples.board_heap Examples.two_objects
                Examples.above_glossy Examples.down = (Some 0%nat, of_int 4))
    by (vm_compute; reflexivity).
  assert (U : unoccluded Examples.board_heap Examples.two_objects
                Examples.on_glossy 1%nat = true)
    by (vm_compute; reflexivity).
  split; [reflexivity | ]. split; [exact U | ].
  pose proof (TraceRay_diffuse Examples.board_heap Examples.two_objects
                Examples.above_glossy Examples.down 0 0%nat (of_int 4)
                [0%nat] [] 1%nat eq_refl H U) as R.
  cbv zeta in R. refine (eq_trans R _). vm_compute. reflexivity.
Defined.

(** Three rays are queried: the primary ray, the shadow ray toward the
    board and the shadow ray toward the lamp. *)
Lemma TraceRay_shadow_rays_witness :
  FindFirstIntersector Examples.board_heap Examples.two_objects
    Examples.above_glossy Examples.down = (Some 0%nat, of_int 4) /\
  TraceRay_queries Examples.board_heap Examples.two_objects
    Examples.above_glossy Examples.down 0
  = [ (Examples.above_glossy, Examples.down);
      shadow_ray Examples.board_heap Examples.on_glossy 0%nat;
      shadow_ray Examples.board_heap Examples.on_glossy 1%nat ].
Proof.
  assert (H : FindFirstIntersector Examples.board_heap Examples.two_objects
                Examples.above_glossy Examples.down = (Some 0%nat, of_int 4))
    by (vm_compute; reflexivity).
  split; [exact H | ].
  exact (TraceRay_shadow_rays Examples.board_heap Examples.two_objects
           Examples.above_glossy Examples.down 0 0%nat (of_int 4) H).
Defined.

(** A ray that goes up from above the board lit from the side meets
    nothing; the ray that goes down meets the board. *)
Lemma TraceRay_needs_hit_below_FLT_MAX_witness :
  (forall q, In q Examples.two_objects ->
     Intersects (Examples.side_heap q) Examples.above_glossy Examples.up
       = None) /\
  FindFirstIntersector Examples.side_heap Examples.two_objects
    Examples.above_glossy Examples.up = (None, FLT_MAX) /\
  exists color,
    TraceRay Examples.board_heap Examples.two_objects
      Examples.above_glossy Examples.down 0 = Some color.
Proof.
  assert (Hmiss : forall q, In q Examples.two_objects ->
            Intersects (Examples.side_heap q) Examples.above_glossy
              Examples.up = None).
  { intros q [<- | [<- | []]]; vm_compute; reflexivity. }
  split; [exact Hmiss | ]. split.
  - exact (proj1 (TraceRay_needs_hit_below_FLT_MAX Examples.side_heap
                    Examples.two_objects Examples.above_glossy Examples.up 0)
             Hmiss).
  - apply (proj1 (proj2 (proj2
             (TraceRay_needs_hit_below_FLT_MAX Examples.board_heap
                Examples.two_objects Examples.above_glossy Examples.down 0)))).
    exists 0%nat, (of_int 4). split; [left; reflexivity | ].
    split; vm_compute; reflexivity.
Defined.

(** The sphere of the specification, seen along (0, 0, -2). *)
Lemma FindFirstIntersector_normalized_direction_witness :
  (forall q, In q Examples.one_object ->
     normalizes_internally (Examples.unit_heap q)) /\
  normalize (normalize (Examples.vec 0 0 (-2)))
    = normalize (Examples.vec 0 0 (-2)) /\
  FindFirstIntersector Examples.unit_heap Examples.one_object
    (Examples.vec 0 0 5) (normalize (Examples.vec 0 0 (-2)))
  = FindFirstIntersector Examples.unit_heap Examples.one_object
      (Examples.vec 0 0 5) (Examples.vec 0 0 (-2)).
Proof.
  assert (Hobj : forall q, In q Examples.one_object ->
            normalizes_internally (Examples.unit_heap q)).
  { intros q [<- | []].
    exists (Primitives.Sphere_hit (Examples.vec 0 0 0) one).
    intros from dir. reflexivity. }
  assert (Hidem : normalize (normalize (Examples.vec 0 0 (-2)))
                  = normalize (Examples.vec 0 0 (-2)))
    by (vm_compute; reflexivity).
  split; [exact Hobj | ]. split; [exact Hidem | ].
  exact (FindFirstIntersector_normalized_direction Examples.unit_heap
           Examples.one_object (Examples.vec 0 0 5) (Examples.vec 0 0 (-2))
           Hobj Hidem).
Defined.

(** * Further properties of the scene query, the shader and the driver *)

(** ** The scene query as a fold *)

Section QueryFold.

Variable heap : ptr -> SceneObject.
Variables from dir : vec3.

Lemma step_capped (r : option ptr * float) (o : ptr) :
  capped r -> capped (FindFirstIntersector_step heap from dir r o).
Proof.
  destruct r as [p d]. unfold FindFirstIntersector_step, capped. cbn [snd].
  destruct (Intersects (heap o) from dir) as [dx|]; [ | tauto].
  destruct (ltb dx d) eqn:Hlt; [ | tauto].
  intros [-> | Hd]; right; cbn [snd]; eauto using ltb_trans.
Qed.

(** One turn leaves the pair as it is or strictly lowers the distance. *)
Lemma step_keeps_or_lowers (r : option ptr * float) (o : ptr) :
  FindFirstIntersector_step heap from dir r o = r \/
  ltb (snd (FindFirstIntersector_step heap from dir r o)) (snd r) = true.
Proof.
  destruct r as [p d]. unfold FindFirstIntersector_step.
  destruct (Intersects (heap o) from dir) as [dx|]; [ | now left].
  destruct (ltb dx d) eqn:Hlt; [right; exact Hlt | now left].
Qed.

Lemma fold_keeps_or_lowers (l : list ptr) (r : option ptr * float) :
  fold_left (FindFirstIntersector_step heap from dir) l r = r \/
  ltb (snd (fold_left (FindFirstIntersector_step heap from dir) l r)) (snd r)
    = true.
Proof.
  revert r. induction l as [| o l IH]; intro r; simpl; [now left | ].
  destruct (IH (FindFirstIntersector_step heap from dir r o)) as [E | Hlt];
    destruct (step_keeps_or_lowers r o) as [E' | Hlt'].
  - left. now rewrite E.
  - right. now rewrite E.
  - right. rewrite E' in Hlt |- *. exact Hlt.
  - right. eapply ltb_trans; eauto.
Qed.

(** An object that does not count for the ray leaves a capped pair as it
    is. *)
Lemma step_ignores (r : option ptr * float) (o : ptr) :
  capped r -> counts heap from dir o = false ->
  FindFirstIntersector_step heap from dir r o = r.
Proof.
  destruct r as [p d]. unfold FindFirstIntersector_step, counts, capped.
  cbn [snd]. destruct (Intersects (heap o) from dir) as [dx|]; [ | reflexivity].
  intros Hcap Hdx.
  assert (Hlt : ltb dx d = false).
  { destruct Hcap as [-> | Hd]; [exact Hdx | ].
    eapply ltb_false_trans; eauto. }
  now rewrite Hlt.
Qed.

Lemma fold_ignores (l : list ptr) (r : option ptr * float) :
  capped r ->
  fold_left (FindFirstIntersector_step heap from dir)
    (filter (counts heap from dir) l) r
  = fold_left (FindFirstIntersector_step heap from dir) l r.
Proof.
  revert r. induction l as [| o l IH]; intros r Hr; simpl; [reflexivity | ].
  destruct (counts heap from dir o) eqn:Ho; simpl.
  - apply IH, step_capped, Hr.
  - rewrite (step_ignores r o Hr Ho). apply IH, Hr.
Qed.

(** Objects that report nothing below the distance kept leave the pair as
    it is. *)
Lemma fold_not_nearer (l : list ptr) (r : option ptr * float) :
  (forall q d', In q l -> Intersects (heap q) from dir = Some d' ->
                ltb d' (snd r) = false) ->
  fold_left (FindFirstIntersector_step heap from dir) l r = r.
Proof.
  induction l as [| o l IH]; intro H; simpl; [reflexivity | ].
  assert (E : FindFirstIntersector_step heap from dir r o = r).
  { destruct r as [p d]. unfold FindFirstIntersector_step.
    destruct (Intersects (heap o) from dir) as [dx|] eqn:Ho; [ | reflexivity].
    cbn [snd] in H. now rewrite (H o dx (or_introl eq_refl) Ho). }
  rewrite E. apply IH. intros q d' Hq. apply H. now right.
Qed.

(** No reported distance of the objects scanned is below the one kept. *)
Lemma nearest_not_below (l : list ptr) (r : option ptr * float) :
  nearest heap from dir l r ->
  forall q d', In q l -> Intersects (heap q) from dir = Some d' ->
               ltb d' (snd r) = false.
Proof.
  destruct r as [[p|] d]; cbn [nearest snd].
  - intros (l1 & l2 & _ & _ & _ & Hmin & _). exact Hmin.
  - intros [-> H]. exact H.
Qed.

End QueryFold.

(** X1.  The distance stored by [FindFirstIntersector] is a sentinel: it
    is FLT_MAX exactly when the pointer returned is empty, and otherwise
    it is the distance reported by the object returned, which belongs to
    the scene; it is never NaN and never above FLT_MAX. *)
Theorem FindFirstIntersector_sentinel
    (heap : ptr -> SceneObject) (sceneObjects : list ptr) (from dir : vec3) :
  let r := FindFirstIntersector heap sceneObjects from dir in
  (fst r = None <-> snd r = FLT_MAX) /\
  is_nan (snd r) = false /\
  ltb FLT_MAX (snd r) = false /\
  (forall p, fst r = Some p ->
     In p sceneObjects /\ Intersects (heap p) from dir = Some (snd r)).
Proof.
  intro r. pose proof (nearest_fold heap from dir sceneObjects) as H.
  fold (FindFirstIntersector heap sceneObjects from dir) in H. fold r in H.
  destruct r as [[p|] d]; cbn [fst snd nearest] in *.
  - destruct H as (l1 & l2 & -> & Hp & Hd & _).
    split; [ | split; [ | split]].
    + split; [discriminate | ]. intros ->.
      rewrite ltb_irrefl in Hd. discriminate.
    + apply (ltb_not_nan _ _ Hd).
    + destruct (ltb FLT_MAX d) eqn:E; [ | reflexivity].
      pose proof (ltb_trans _ _ _ Hd E) as Hdd.
      rewrite ltb_irrefl in Hdd. discriminate.
    + intros q [= <-]. split; [apply in_elt | exact Hp].
  - destruct H as [-> _]. split; [tauto | ]. split; [reflexivity | ].
    split; [apply ltb_irrefl | discriminate].
Qed.

(** X2.  Objects that miss the ray, or report a distance that is not
    below FLT_MAX (NaN included), have no influence: the query over the
    whole scene returns what it returns over the objects that count. *)
Theorem FindFirstIntersector_only_counting_objects
    (heap : ptr -> SceneObject) (sceneObjects : list ptr) (from dir : vec3) :
  FindFirstIntersector heap (filter (counts heap from dir) sceneObjects)
    from dir
  = FindFirstIntersector heap sceneObjects from dir.
Proof.
  unfold FindFirstIntersector. apply fold_ignores. left. reflexivity.
Qed.

(** X3.  Scanning more objects never moves the result farther: over a
    longer list the query returns the same pointer and distance, or a
    strictly smaller distance. *)
Theorem FindFirstIntersector_more_objects
    (heap : ptr -> SceneObject) (l l' : list ptr) (from dir : vec3) :
  FindFirstIntersector heap (l ++ l') from dir
    = FindFirstIntersector heap l from dir \/
  ltb (snd (FindFirstIntersector heap (l ++ l') from dir))
      (snd (FindFirstIntersector heap l from dir)) = true.
Proof.
  unfold FindFirstIntersector. rewrite fold_left_app.
  apply fold_keeps_or_lowers.
Qed.

Lemma query_listed_again
    (heap : ptr -> SceneObject) (l l' : list ptr) (from dir : vec3) :
  incl l' l ->
  FindFirstIntersector heap (l ++ l') from dir
  = FindFirstIntersector heap l from dir.
Proof.
  intro Hincl. unfold FindFirstIntersector. rewrite fold_left_app.
  apply fold_not_nearer. intros q d' Hq.
  apply (nearest_not_below heap from dir l).
  - apply nearest_fold.
  - apply Hincl, Hq.
Qed.

(** X4.  Listing again objects that are already in the list changes
    nothing. *)
Theorem FindFirstIntersector_listed_again
    (heap : ptr -> SceneObject) (l l' : list ptr) (from dir : vec3) :
  incl l' l ->
  FindFirstIntersector heap (l ++ l') from dir
  = FindFirstIntersector heap l from dir.
Proof.
  apply query_listed_again.
Qed.

(** X5.  Without ties the insertion order is irrelevant: two lists with
    the same objects, in any order, give the same pointer and the same
    distance, provided different objects that count for the ray report
    distances that [<] tells apart. *)
Theorem FindFirstIntersector_order_irrelevant
    (heap : ptr -> SceneObject) (l l' : list ptr) (from dir : vec3) :
  (forall q, In q l <-> In q l') ->
  no_ties heap from dir l ->
  FindFirstIntersector heap l from dir = FindFirstIntersector heap l' from dir.
Proof.
  intros Hsame Hties.
  pose proof (nearest_fold heap from dir l) as H.
  pose proof (nearest_fold heap from dir l') as H'.
  fold (FindFirstIntersector heap l from dir) in H.
  fold (FindFirstIntersector heap l' from dir) in H'.
  destruct (FindFirstIntersector heap l from dir) as [[p|] d];
    destruct (FindFirstIntersector heap l' from dir) as [[p'|] d'];
    cbn [nearest] in H, H'.
  - destruct H as (l1 & l2 & Hl & Hp & Hd & Hmin & _).
    destruct H' as (l1' & l2' & Hl' & Hp' & Hd' & Hmin' & _).
    assert (Hin : In p l) by (rewrite Hl; apply in_elt).
    assert (Hin' : In p' l') by (rewrite Hl'; apply in_elt).
    assert (Epp : p = p').
    { destruct (Nat.eq_dec p p') as [E | N]; [exact E | exfalso].
      destruct (Hties p p' d d' Hin (proj2 (Hsame p') Hin') N Hp Hp' Hd Hd')
        as [Hlt | Hlt].
      - rewrite (Hmin' p d (proj1 (Hsame p) Hin) Hp) in Hlt. discriminate.
      - rewrite (Hmin p' d' (proj2 (Hsame p') Hin') Hp') in Hlt.
        discriminate. }
    subst p'. unfold hit in Hp, Hp'. congruence.
  - destruct H as (l1 & l2 & Hl & Hp & Hd & _). destruct H' as [_ Hnone].
    assert (Hin : In p l) by (rewrite Hl; apply in_elt).
    rewrite (Hnone p d (proj1 (Hsame p) Hin) Hp) in Hd. discriminate.
  - destruct H' as (l1' & l2' & Hl' & Hp' & Hd' & _). destruct H as [_ Hnone].
    assert (Hin' : In p' l') by (rewrite Hl'; apply in_elt).
    rewrite (Hnone p' d' (proj2 (Hsame p') Hin') Hp') in Hd'. discriminate.
  - destruct H as [-> _]. destruct H' as [-> _]. reflexivity.
Qed.


(** ** The shader and the materials *)

Lemma fold_left_constant {A B} (l : list B) (a : A) :
  fold_left (fun a _ => a) l a = a.
Proof. induction l as [| b l IH]; simpl; auto. Qed.

(** X6.  In full shadow only the emission is seen: when the primary ray
    hits an object and no candidate light of the scene is the nearest
    object along its own shadow ray, [TraceRay] returns the emissive
    colour of the hit object (of its material at the origin), with
    nothing added. *)
Theorem TraceRay_full_shadow
    (heap : ptr -> SceneObject) (sceneObjects : list ptr)
    (rayorig raydir : vec3) (depth : Z) (obj : ptr) (minDistance : float) :
  FindFirstIntersector heap sceneObjects rayorig raydir
    = (Some obj, minDistance) ->
  (forall light, In light sceneObjects ->
     occluder heap sceneObjects
       (rayorig + normalize raydir *: minDistance)%vec light <> Some light) ->
  TraceRay heap sceneObjects rayorig raydir depth
    = Some (emissive (GetMaterial (heap obj) origin0)).
Proof.
  intros Hhit Hdark. rewrite TraceRay_color, Hhit. cbv zeta. f_equal.
  rewrite <- (fold_left_constant sceneObjects
                (emissive (GetMaterial (heap obj) origin0))) at 2.
  apply fold_left_agree. intros color light Hlight.
  rewrite TraceRay_light_color. unfold unoccluded.
  destruct (same_object _ light) eqn:E; [ | reflexivity].
  apply same_object_true in E. destruct (Hdark light Hlight E).
Qed.

Section SameShading.

Variables heap heap' : ptr -> SceneObject.
Variable sceneObjects : list ptr.
Hypothesis Hsame : same_shading heap heap'.

Lemma same_shading_query (from dir : vec3) :
  FindFirstIntersector heap sceneObjects from dir
  = FindFirstIntersector heap' sceneObjects from dir.
Proof.
  unfold FindFirstIntersector. apply fold_left_agree. intros r q _.
  unfold FindFirstIntersector_step.
  destruct (Hsame q) as (Hi & _). rewrite Hi. reflexivity.
Qed.

Lemma same_shading_lightDir (interPos : vec3) (light : ptr) :
  lightDir heap interPos light = lightDir heap' interPos light.
Proof.
  unfold lightDir. destruct (Hsame light) as (_ & _ & Hr & _).
  rewrite Hr. reflexivity.
Qed.

Lemma same_shading_light
    (raydir : vec3) (obj : ptr) (interPos normal albedo color : vec3)
    (light : ptr) :
  fst (TraceRay_light heap sceneObjects raydir obj interPos normal albedo
         color light)
  = fst (TraceRay_light heap' sceneObjects raydir obj interPos normal albedo
           color light).
Proof.
  rewrite !TraceRay_light_color.
  unfold unoccluded, occluder, shadow_ray, diffuse_term, specular_dot.
  rewrite same_shading_lightDir, same_shading_query.
  destruct (Hsame light) as (_ & _ & _ & _ & He & _).
  destruct (Hsame obj) as (_ & _ & _ & _ & _ & Hs).
  rewrite He, Hs. reflexivity.
Qed.

End SameShading.

(** X7.  [TraceRay] reads the materials only through the albedo at the
    hit point and the emissive and specular colours at the point
    (0, 0, 0): two stores whose objects have the same geometry, the same
    albedo everywhere and the same emissive and specular colours at
    (0, 0, 0) give the same colour, whatever their materials are
    elsewhere. *)
Theorem TraceRay_reads_materials_at_origin
    (heap heap' : ptr -> SceneObject) (sceneObjects : list ptr)
    (rayorig raydir : vec3) (depth : Z) :
  same_shading heap heap' ->
  TraceRay heap sceneObjects rayorig raydir depth
  = TraceRay heap' sceneObjects rayorig raydir depth.
Proof.
  intro Hsame. rewrite !TraceRay_color.
  rewrite (same_shading_query heap heap' sceneObjects Hsame).
  destruct (FindFirstIntersector heap' sceneObjects rayorig raydir)
    as [[obj|] minDistance]; [ | reflexivity].
  cbv zeta. destruct (Hsame obj) as (_ & Hn & _ & Ha & He & _).
  rewrite Hn, Ha, He. f_equal. apply fold_left_agree.
  intros color light _. apply same_shading_light, Hsame.
Qed.


(** ** The loops of the render driver *)

Lemma for_each_nth {A B} (f : A -> option B) (l : list A) (bs : list B) :
  for_each f l = Some bs ->
  length bs = length l /\
  forall k a, nth_error l k = Some a -> nth_error bs k = f a.
Proof.
  revert bs. induction l as [| a l IH]; simpl; intros bs H.
  - injection H as <-. split; [reflexivity | ]. intros [| k] a'; discriminate.
  - destruct (f a) as [b|] eqn:Hb; [ | discriminate].
    destruct (for_each f l) as [bs'|]; [ | discriminate].
    injection H as <-. destruct (IH bs' eq_refl) as [Hlen Hnth].
    split; [simpl; now rewrite Hlen | ].
    intros [| k] a'; simpl.
    + intros [= <-]. now rewrite Hb.
    + apply Hnth.
Qed.

Lemma for_each_undefined {A B} (f : A -> option B) (l : list A) :
  for_each f l = None <-> exists a, In a l /\ f a = None.
Proof.
  induction l as [| a l IH]; simpl.
  - split; [discriminate | intros (a & [] & _)].
  - destruct (f a) as [b|] eqn:Hb.
    + destruct (for_each f l) as [bs|].
      * split; [discriminate | ].
        intros (a' & [<- | Ha'] & Hn); [congruence | ].
        assert (E : Some bs = None) by (apply (proj2 IH); eauto).
        discriminate.
      * split; [ | reflexivity]. intros _.
        destruct (proj1 IH eq_refl) as (a' & Ha' & Hn). eauto.
    + split; [ | reflexivity]. intros _. exists a. auto.
Qed.

Lemma nth_error_range (n : Z) (k : nat) :
  (k < Z.to_nat n)%nat -> nth_error (range n) k = Some (Z.of_nat k).
Proof.
  intro Hk. unfold range. rewrite nth_error_map.
  rewrite (nth_error_nth' _ 0%nat) by (now rewrite length_seq).
  rewrite seq_nth by exact Hk. reflexivity.
Qed.

(** In a grid of rows of the same length, the element of column [i] in
    row [j] comes at position [j * width + i]. *)
Lemma nth_error_grid {A B} (rows : list A) (cols : list B)
    (i j : nat) (r : A) (c : B) :
  nth_error rows j = Some r -> nth_error cols i = Some c ->
  nth_error (flat_map (fun r => map (fun c => (c, r)) cols) rows)
            (j * length cols + i)
  = Some (c, r).
Proof.
  revert j. induction rows as [| r' rows IH]; intros [| j] Hr Hc;
    simpl in Hr; try discriminate; simpl.
  - injection Hr as ->. rewrite nth_error_app1.
    + rewrite nth_error_map, Hc. reflexivity.
    + rewrite length_map. apply nth_error_Some. congruence.
  - rewrite nth_error_app2 by (rewrite length_map; lia).
    rewrite length_map.
    replace (length cols + j * length cols + i - length cols)%nat
      with (j * length cols + i)%nat by lia.
    apply IH; assumption.
Qed.

Lemma nth_error_pixel_grid (px py : Z) :
  (0 <= px < ImageWidth)%Z -> (0 <= py < ImageHeight)%Z ->
  nth_error pixel_grid (Z.to_nat (py * ImageWidth + px)) = Some (px, py).
Proof.
  intros Hx Hy. unfold pixel_grid.
  replace (Z.to_nat (py * ImageWidth + px))
    with (Z.to_nat py * length (range ImageWidth) + Z.to_nat px)%nat.
  - apply nth_error_grid.
    + rewrite nth_error_range by lia. now rewrite Z2Nat.id by lia.
    + rewrite nth_error_range by lia. now rewrite Z2Nat.id by lia.
  - rewrite length_range. unfold ImageWidth in *. lia.
Qed.

(** A pixel that is written is written at its own coordinates. *)
Lemma DrawScene_pixel_coordinates
    (heap : ptr -> SceneObject) (sceneObjects : list ptr) (pCamera : Camera)
    (clamp : vec3 -> vec3 -> vec3 -> vec3) (px py : Z) (w : PutPixel) :
  DrawScene_pixel heap sceneObjects pCamera clamp px py = Some w ->
  coordinates w = (px, py).
Proof.
  unfold DrawScene_pixel.
  destruct (TraceRay _ _ _ _ _) as [color|]; [ | discriminate].
  cbv zeta.
  set (shown := clamp (scale color f255) (Vec3 zero zero zero)
                  (Vec3 f255 f255 f255)).
  destruct (uint8_t (x shown)) as [r|]; [ | discriminate].
  destruct (uint8_t (y shown)) as [g|]; [ | discriminate].
  destruct (uint8_t (z shown)) as [b|]; [ | discriminate].
  intros [= <-]. reflexivity.
Qed.

(** X8.  [DrawScene] covers the image exactly once, row by row: when it
    runs through, it has written 512 * 512 pixels, and the pixel written
    at position [py * 512 + px] is the pixel [(px, py)], with the colour
    computed for it; it fails to run through only when some pixel of the
    image has no defined colour.  No pixel is written outside
    [0, 512) x [0, 512). *)
Theorem DrawScene_row_by_row
    (heap : ptr -> SceneObject) (sceneObjects : list ptr) (pCamera : Camera)
    (clamp : vec3 -> vec3 -> vec3 -> vec3) :
  match DrawScene heap sceneObjects pCamera clamp with
  | Some pixels =>
      length pixels = Z.to_nat (ImageWidth * ImageHeight) /\
      (forall px py,
          (0 <= px < ImageWidth)%Z -> (0 <= py < ImageHeight)%Z ->
          exists rgb,
            nth_error pixels (Z.to_nat (py * ImageWidth + px))
              = Some (px, py, rgb) /\
            DrawScene_pixel heap sceneObjects pCamera clamp px py
              = Some (px, py, rgb)) /\
      (forall px py rgb,
          In (px, py, rgb) pixels ->
          (0 <= px < ImageWidth)%Z /\ (0 <= py < ImageHeight)%Z)
  | None =>
      exists px py,
        (0 <= px < ImageWidth)%Z /\ (0 <= py < ImageHeight)%Z /\
        DrawScene_pixel heap sceneObjects pCamera clamp px py = None
  end.
Proof.
  unfold DrawScene. fold pixel_grid.
  destruct (for_each _ pixel_grid) as [pixels|] eqn:H.
  - destruct (for_each_nth _ _ _ H) as [Hlen Hnth]. split; [ | split].
    + rewrite Hlen. unfold pixel_grid.
      rewrite length_grid, !length_range.
      rewrite Z2Nat.inj_mul by (unfold ImageWidth, ImageHeight; lia).
      apply Nat.mul_comm.
    + intros px py Hx Hy.
      pose proof (Hnth _ _ (nth_error_pixel_grid px py Hx Hy)) as Hk.
      cbn [fst snd] in Hk.
      destruct (DrawScene_pixel heap sceneObjects pCamera clamp px py)
        as [[[px' py'] rgb]|] eqn:Hp.
      * pose proof (DrawScene_pixel_coordinates _ _ _ _ _ _ _ Hp) as Hc.
        injection Hc as -> ->. eauto.
      * exfalso. apply nth_error_None in Hk. rewrite Hlen in Hk.
        assert (Z.to_nat (py * ImageWidth + px) < length pixel_grid)%nat.
        { apply nth_error_Some.
          rewrite (nth_error_pixel_grid px py Hx Hy). discriminate. }
        lia.
    + intros px py rgb Hin. apply In_nth_error in Hin.
      destruct Hin as (k & Hk).
      destruct (nth_error pixel_grid k) as [[qx qy]|] eqn:Hq.
      * pose proof (eq_trans (eq_sym (Hnth _ _ Hq)) Hk) as Hf.
        cbn [fst snd] in Hf.
        pose proof (DrawScene_pixel_coordinates _ _ _ _ _ _ _ Hf) as Hc.
        injection Hc as <- <-.
        apply nth_error_In in Hq. unfold pixel_grid in Hq.
        apply in_flat_map in Hq. destruct Hq as (y' & Hy' & Hq).
        apply in_map_iff in Hq. destruct Hq as (x' & [= <- <-] & Hx').
        split; apply range_bounds; assumption.
      * exfalso. apply nth_error_None in Hq. rewrite <- Hlen in Hq.
        assert (Hlt : (k < length pixels)%nat)
          by (apply nth_error_Some; intro E;
              discriminate (eq_trans (eq_sym E) Hk)).
        lia.
  - apply for_each_undefined in H. destruct H as ([px py] & Hin & Hn).
    exists px, py. unfold pixel_grid in Hin.
    apply in_flat_map in Hin. destruct Hin as (y' & Hy' & Hin).
    apply in_map_iff in Hin. destruct Hin as (x' & [= <- <-] & Hx').
    split; [apply range_bounds, Hx' | ].
    split; [apply range_bounds, Hy' | exact Hn].
Qed.

(** With a [clamp] that clamps, a pixel has a defined colour exactly when
    its ray hits something. *)
Lemma DrawScene_pixel_undefined
    (heap : ptr -> SceneObject) (sceneObjects : list ptr) (pCamera : Camera)
    (clamp : vec3 -> vec3 -> vec3 -> vec3) (px py : Z) :
  clamps clamp ->
  (DrawScene_pixel heap sceneObjects pCamera clamp px py = None <->
   TraceRay heap sceneObjects (position pCamera) (pixel_ray pCamera px py) 0
     = None).
Proof.
  intro Hclamp. unfold DrawScene_pixel. fold (pixel_ray pCamera px py).
  destruct (TraceRay _ _ _ _ _) as [color|]; [ | tauto].
  cbv zeta.
  assert (H055 : leb zero f255 = true) by (vm_compute; reflexivity).
  destruct (Hclamp (scale color f255) (Vec3 zero zero zero)
              (Vec3 f255 f255 f255) H055 H055 H055) as (Hx & Hy & Hz).
  cbn [x y z] in Hx, Hy, Hz.
  destruct (uint8_t_defined _ Hx) as (r & -> & _).
  destruct (uint8_t_defined _ Hy) as (g & -> & _).
  destruct (uint8_t_defined _ Hz) as (b & -> & _).
  split; discriminate.
Qed.

(** X9.  With a [clamp] that clamps, the only way for [DrawScene] to have
    no defined behaviour is the empty pointer in [TraceRay]: it fails to
    run through exactly when the ray through the centre of some pixel of
    the image hits no object at a distance below FLT_MAX. *)
Theorem DrawScene_undefined_only_by_miss
    (heap : ptr -> SceneObject) (sceneObjects : list ptr) (pCamera : Camera)
    (clamp : vec3 -> vec3 -> vec3 -> vec3) :
  clamps clamp ->
  (DrawScene heap sceneObjects pCamera clamp = None <->
   exists px py,
     (0 <= px < ImageWidth)%Z /\ (0 <= py < ImageHeight)%Z /\
     forall q d,
       In q sceneObjects ->
       Intersects (heap q) (position pCamera) (pixel_ray pCamera px py)
         = Some d ->
       ltb d FLT_MAX = false).
Proof.
  intro Hclamp. unfold DrawScene. fold pixel_grid.
  rewrite for_each_undefined. split.
  - intros ([px py] & Hin & Hn). cbn [fst snd] in Hn.
    apply (DrawScene_pixel_undefined _ _ _ _ _ _ Hclamp) in Hn.
    apply (proj1 (TraceRay_undefined _ _ _ _ _)) in Hn.
    pose proof (proj1 (FindFirstIntersector_empty _ _ _ _) Hn) as Hmiss.
    unfold pixel_grid in Hin.
    apply in_flat_map in Hin. destruct Hin as (y' & Hy' & Hin).
    apply in_map_iff in Hin. destruct Hin as (x' & [= <- <-] & Hx').
    exists x', y'.
    split; [apply range_bounds, Hx' | ].
    split; [apply range_bounds, Hy' | exact Hmiss].
  - intros (px & py & Hx & Hy & Hmiss). exists (px, py). split.
    + eapply nth_error_In, nth_error_pixel_grid; eassumption.
    + cbn [fst snd]. apply (DrawScene_pixel_undefined _ _ _ _ _ _ Hclamp).
      apply (proj2 (TraceRay_undefined _ _ _ _ _)).
      apply (proj2 (FindFirstIntersector_empty _ _ _ _)). exact Hmiss.
Qed.


(** ** The clamped channels *)

Lemma shr_1_sign (mrs : shr_record) :
  (0 <= shr_m mrs)%Z -> (0 <= shr_m (shr_1 mrs))%Z.
Proof.
  destruct mrs as [[| [p | p |] | p] r s]; simpl; lia.
Qed.

Lemma iter_shr_1_sign (p : positive) (mrs : shr_record) :
  (0 <= shr_m mrs)%Z -> (0 <= shr_m (iter_pos shr_1 p mrs))%Z.
Proof.
  revert mrs. induction p as [p IH | p IH |]; intros mrs H; simpl.
  - apply IH, IH, shr_1_sign, H.
  - apply IH, IH, H.
  - apply shr_1_sign, H.
Qed.

Lemma shr_fexp_sign (m e : Z) (l : location) :
  (0 <= m)%Z -> (0 <= shr_m (fst (shr_fexp prec emax m e l)))%Z.
Proof.
  intro H. unfold shr_fexp, shr.
  assert (H0 : (0 <= shr_m (shr_record_of_loc m l))%Z)
    by (destruct l as [| []]; exact H).
  destruct (fexp prec emax (Zdigits2 m + e) - e)%Z; cbn [fst];
    auto using iter_shr_1_sign.
Qed.

Lemma round_nearest_even_sign (m : Z) (l : location) :
  (0 <= m)%Z -> (0 <= round_nearest_even m l)%Z.
Proof.
  intro H. destruct l as [| []]; simpl; try destruct (Z.even m); lia.
Qed.

Lemma binary_round_aux_not_nan (s : bool) (m : positive) (e : Z) :
  is_nan (binary_round_aux prec emax s (Zpos m) e loc_Exact) = false.
Proof.
  unfold binary_round_aux.
  pose proof (shr_fexp_sign (Zpos m) e loc_Exact ltac:(lia)) as H1.
  destruct (shr_fexp prec emax (Zpos m) e loc_Exact) as [mrs' e'].
  cbn [fst] in H1.
  pose proof (shr_fexp_sign _ e' loc_Exact
                (round_nearest_even_sign _ (loc_of_shr_record mrs') H1)) as H2.
  destruct (shr_fexp prec emax
              (round_nearest_even (shr_m mrs') (loc_of_shr_record mrs')) e'
              loc_Exact) as [mrs'' e''].
  cbn [fst] in H2.
  destruct (shr_m mrs'') as [| q | q]; [reflexivity | | lia].
  destruct (e'' <=? emax - prec)%Z; reflexivity.
Qed.

(** Scaling by 255 keeps a number a number. *)
Lemma mul_f255_not_nan (a : float) :
  is_nan a = false -> is_nan (a * f255)%flt = false.
Proof.
  destruct a as [s | s | | s m e]; try discriminate; intros _;
    try reflexivity.
  change f255 with (S754_finite false 16711680 (-16)).
  unfold mul, SFmul. apply binary_round_aux_not_nan.
Qed.

(** On a number, glm's clamp gives a number between the bounds. *)
Lemma func_common_clamp1_between (a lo hi : float) :
  is_nan a = false -> leb lo hi = true ->
  between lo (func_common.clamp1 a lo hi) hi.
Proof.
  intros Ha Hlh. destruct (leb_not_nan _ _ Hlh) as [Hlo Hhi].
  unfold between, func_common.clamp1, func_common.min, func_common.max.
  destruct (ltb a lo) eqn:E1.
  - destruct (ltb hi lo) eqn:E2.
    + apply leb_below in Hlh. apply ltb_below in E2. tauto.
    + split; [apply leb_refl, Hlo | exact Hlh].
  - destruct (ltb hi a) eqn:E2.
    + split; [exact Hlh | apply leb_refl, Hhi].
    + split; apply ltb_false_leb; assumption.
Qed.

(** A NaN goes through glm's clamp. *)
Lemma func_common_clamp1_nan (lo hi : float) :
  func_common.clamp1 S754_nan lo hi = S754_nan.
Proof.
  unfold func_common.clamp1, func_common.min, func_common.max.
  assert (H : forall b, ltb S754_nan b = false) by (intros []; reflexivity).
  assert (H' : forall b, ltb b S754_nan = false)
    by (intros [[] | [] | | [] ? ?]; reflexivity).
  rewrite H, H'. reflexivity.
Qed.

Section ClampedPixels.

Variable heap : ptr -> SceneObject.
Variable sceneObjects : list ptr.
Variable pCamera : Camera.

Lemma DrawScene_pixel_shown (px py : Z) (color : vec3) :
  TraceRay heap sceneObjects (position pCamera)
    (GetWorldRay pCamera ((of_int px + half)%flt, (of_int py + half)%flt)) 0
    = Some color ->
  no_nan color ->
  let shown :=
    func_common.clamp (color *: f255)%vec (Vec3 zero zero zero)
      (Vec3 f255 f255 f255) in
  between zero (x shown) f255 /\
  between zero (y shown) f255 /\
  between zero (z shown) f255 /\
  exists r g b,
    uint8_t (x shown) = Some r /\
    uint8_t (y shown) = Some g /\
    uint8_t (z shown) = Some b /\
    DrawScene_pixel heap sceneObjects pCamera func_common.clamp px py
      = Some (px, py, (r, g, b)) /\
    bytes (px, py, (r, g, b)).
Proof.
  intros Hcolor (Nx & Ny & Nz) shown.
  assert (H055 : leb zero f255 = true) by (vm_compute; reflexivity).
  assert (Hx : between zero (x shown) f255)
    by (apply func_common_clamp1_between;
        [apply mul_f255_not_nan, Nx | exact H055]).
  assert (Hy : between zero (y shown) f255)
    by (apply func_common_clamp1_between;
        [apply mul_f255_not_nan, Ny | exact H055]).
  assert (Hz : between zero (z shown) f255)
    by (apply func_common_clamp1_between;
        [apply mul_f255_not_nan, Nz | exact H055]).
  destruct (uint8_t_defined _ Hx) as (r & Hr & Hr').
  destruct (uint8_t_defined _ Hy) as (g & Hg & Hg').
  destruct (uint8_t_defined _ Hz) as (b & Hb & Hb').
  repeat (split; [assumption | ]).
  exists r, g, b. repeat (split; [assumption | ]). split.
  - unfold DrawScene_pixel. rewrite Hcolor. fold shown.
    rewrite Hr, Hg, Hb. reflexivity.
  - unfold bytes. auto.
Qed.

End ClampedPixels.



(** ** The nearest hit is unique *)

(** A first occurrence splits a list in one way only. *)
Lemma first_occurrence_prefix {A} (a : A) (l1 l2 l1' l2' : list A) :
  l1 ++ a :: l2 = l1' ++ a :: l2' -> ~ In a l1 ->
  exists t, l1' = l1 ++ t.
Proof.
  revert l1'. induction l1 as [| b l1 IH]; intros l1' E Hnot.
  - exists l1'. reflexivity.
  - destruct l1' as [| b' l1']; simpl in E.
    + injection E as <- _. exfalso. apply Hnot. now left.
    + injection E as <- E. destruct (IH l1' E) as (t & ->).
      * intro Hin. apply Hnot. now right.
      * exists t. reflexivity.
Qed.

Section Unique.

Variable heap : ptr -> SceneObject.
Variables from dir : vec3.

(** The object of a nearest hit does not occur before its place. *)
Lemma nearest_first (l1 l2 : list ptr) (p : ptr) (d : float) :
  hit heap from dir p = Some d -> ltb d FLT_MAX = true ->
  (forall q d', In q l1 -> hit heap from dir q = Some d' ->
                ltb d d' = true \/ is_nan d' = true) ->
  ~ In p l1.
Proof.
  intros Hp Hd Hfirst Hin.
  destruct (Hfirst p d Hin Hp) as [H | H].
  - rewrite ltb_irrefl in H. discriminate.
  - rewrite (proj1 (ltb_not_nan _ _ Hd)) in H. discriminate.
Qed.

Lemma nearest_unique (l : list ptr) (r r' : option ptr * float) :
  nearest heap from dir l r -> nearest heap from dir l r' -> r = r'.
Proof.
  destruct r as [[p|] d], r' as [[p'|] d']; cbn [nearest].
  - intros (l1 & l2 & Hl & Hp & Hd & Hmin & Hfirst)
           (l1' & l2' & Hl' & Hp' & Hd' & Hmin' & Hfirst').
    assert (Hin : In p l) by (rewrite Hl; apply in_elt).
    assert (Hin' : In p' l) by (rewrite Hl'; apply in_elt).
    pose proof (Hmin p' d' Hin' Hp') as Hle.
    pose proof (Hmin' p d Hin Hp) as Hle'.
    assert (Epp : p = p').
    { destruct (Nat.eq_dec p p') as [E | N]; [exact E | exfalso].
      (* one of the two comes first, and then reports a distance strictly
         above the other's *)
      assert (Hcase : In p' l1 \/ In p l1').
      { rewrite Hl in Hl'. clear - Hl' N.
        revert l1' Hl'. induction l1 as [| b l1 IH]; intros l1' E.
        - destruct l1' as [| b' l1']; simpl in E.
          + injection E as E _. contradiction.
          + injection E as <- _. right. now left.
        - destruct l1' as [| b' l1']; simpl in E.
          + injection E as -> _. left. now left.
          + injection E as <- E. destruct (IH l1' E); [left | right];
              now right. }
      destruct Hcase as [Hc | Hc].
      - destruct (Hfirst p' d' Hc Hp') as [H | H].
        + rewrite H in Hle'. discriminate.
        + rewrite (proj1 (ltb_not_nan _ _ Hd')) in H. discriminate.
      - destruct (Hfirst' p d Hc Hp) as [H | H].
        + rewrite H in Hle. discriminate.
        + rewrite (proj1 (ltb_not_nan _ _ Hd)) in H. discriminate. }
    subst p'. congruence.
  - intros (l1 & l2 & Hl & Hp & Hd & _) [_ Hnone].
    rewrite (Hnone p d) in Hd; [discriminate | | exact Hp].
    rewrite Hl. apply in_elt.
  - intros [_ Hnone] (l1 & l2 & Hl & Hp & Hd & _).
    rewrite (Hnone p' d') in Hd; [discriminate | | exact Hp].
    rewrite Hl. apply in_elt.
  - intros [-> _] [-> _]. reflexivity.
Qed.

End Unique.

(** X10.  The description of the nearest hit determines the result: a
    pointer and a distance are what [FindFirstIntersector] returns exactly
    when they are the nearest hit of the ray among the scene objects. *)
Theorem FindFirstIntersector_is_the_nearest
    (heap : ptr -> SceneObject) (sceneObjects : list ptr) (from dir : vec3)
    (r : option ptr * float) :
  FindFirstIntersector heap sceneObjects from dir = r <->
  nearest heap from dir sceneObjects r.
Proof.
  split.
  - intros <-. apply nearest_fold.
  - intro H. eapply nearest_unique; [ | exact H]. apply nearest_fold.
Qed.

(** X11.  A tie blocks the light: when an object inserted before the
    first occurrence of a candidate light reports, along the shadow ray
    toward that light, a distance below FLT_MAX that is not strictly above
    the distance the light itself reports, the light adds nothing to the
    colour. *)
Theorem TraceRay_light_blocked_by_tie
    (heap : ptr -> SceneObject) (l1 l2 : list ptr)
    (raydir : vec3) (obj : ptr) (interPos normal albedo color : vec3)
    (light blocker : ptr) (dl db : float) :
  let ray := shadow_ray heap interPos light in
  ~ In light l1 -> In blocker l1 ->
  Intersects (heap light) (fst ray) (snd ray) = Some dl ->
  Intersects (heap blocker) (fst ray) (snd ray) = Some db ->
  ltb db FLT_MAX = true ->
  ltb dl db = false ->
  fst (TraceRay_light heap (l1 ++ light :: l2) raydir obj interPos normal
         albedo color light)
  = color.
Proof.
  intros ray Hfirst Hin Hl Hb Hdb Hle.
  rewrite TraceRay_light_color.
  destruct (unoccluded heap (l1 ++ light :: l2) interPos light) eqn:E;
    [exfalso | reflexivity].
  unfold unoccluded in E. apply same_object_true in E. unfold occluder in E.
  fold ray in E.
  pose proof (nearest_fold heap (fst ray) (snd ray) (l1 ++ light :: l2)) as H.
  fold (FindFirstIntersector heap (l1 ++ light :: l2) (fst ray) (snd ray)) in H.
  destruct (FindFirstIntersector heap (l1 ++ light :: l2) (fst ray) (snd ray))
    as [p d]. cbn [fst] in E. subst p. cbn [nearest] in H.
  destruct H as (l1' & l2' & Hsplit & Hp & Hd & _ & Hbefore).
  destruct (first_occurrence_prefix _ _ _ _ _ Hsplit Hfirst) as (t & ->).
  unfold hit in Hp. rewrite Hl in Hp. injection Hp as ->.
  destruct (Hbefore blocker db) as [H | H].
  - apply in_or_app. now left.
  - exact Hb.
  - rewrite H in Hle. discriminate.
  - rewrite (proj1 (ltb_not_nan _ _ Hdb)) in H. discriminate.
Qed.

(** ** The colour channels *)

Lemma get_plus (c : channel) (a b : vec3) :
  get c (a + b)%vec = (get c a + get c b)%flt.
Proof. destruct c; reflexivity. Qed.

Lemma get_times (c : channel) (a b : vec3) :
  get c (a * b)%vec = (get c a * get c b)%flt.
Proof. destruct c; reflexivity. Qed.

Lemma get_scale (c : channel) (a : vec3) (s : float) :
  get c (a *: s)%vec = (get c a * s)%flt.
Proof. destruct c; reflexivity. Qed.

(** Folds that keep a relation between the accumulators end related. *)
Lemma fold_left_related {A A' B} (R : A -> A' -> Prop)
    (f : A -> B -> A) (f' : A' -> B -> A') (l : list B) (a : A) (a' : A') :
  (forall a a' b, R a a' -> R (f a b) (f' a' b)) ->
  R a a' -> R (fold_left f l a) (fold_left f' l a').
Proof.
  intro Hstep. revert a a'. induction l as [| b l IH]; simpl; auto.
Qed.

(** X12.  The colour channels do not mix: the red channel of the colour
    [TraceRay] returns depends on the materials only through their red
    channels, and likewise for green and blue.  Two stores with the same
    geometry whose materials agree on one channel (of the albedo, and of
    the emissive and specular colours at (0, 0, 0)) give the same value
    in that channel. *)
Theorem TraceRay_channels_do_not_mix
    (c : channel) (heap heap' : ptr -> SceneObject) (sceneObjects : list ptr)
    (rayorig raydir : vec3) (depth : Z) :
  same_channel c heap heap' ->
  option_map (get c) (TraceRay heap sceneObjects rayorig raydir depth)
  = option_map (get c) (TraceRay heap' sceneObjects rayorig raydir depth).
Proof.
  intro Hsame.
  assert (Hquery : forall from dir,
             FindFirstIntersector heap sceneObjects from dir
             = FindFirstIntersector heap' sceneObjects from dir).
  { intros from dir. unfold FindFirstIntersector. apply fold_left_agree.
    intros r q _. unfold FindFirstIntersector_step.
    destruct (Hsame q) as (Hi & _). rewrite Hi. reflexivity. }
  assert (Hdir : forall interPos light,
             lightDir heap interPos light = lightDir heap' interPos light).
  { intros interPos light. unfold lightDir.
    destruct (Hsame light) as (_ & _ & Hr & _). rewrite Hr. reflexivity. }
  rewrite !TraceRay_color, Hquery.
  destruct (FindFirstIntersector heap' sceneObjects rayorig raydir)
    as [[obj|] minDistance]; [ | reflexivity].
  cbv zeta. cbn [option_map]. f_equal.
  destruct (Hsame obj) as (_ & Hn & _ & Ha & He & Hs). rewrite Hn.
  apply (fold_left_related (fun a a' => get c a = get c a')); [ | exact He].
  intros color color' light Hcolor.
  rewrite !TraceRay_light_color.
  unfold unoccluded, occluder, shadow_ray, diffuse_term, specular_dot,
    specular_term.
  rewrite Hdir, Hquery.
  destruct (same_object _ light); [ | exact Hcolor].
  destruct (Hsame light) as (_ & _ & _ & _ & Hel & _).
  rewrite !get_plus, !get_scale, !get_times, Hcolor, Ha, Hel, Hs.
  reflexivity.
Qed.


(** ** An object listed twice *)

Lemma light_listed_again
    (heap : ptr -> SceneObject) (l l' : list ptr)
    (raydir : vec3) (obj : ptr) (interPos normal albedo color : vec3)
    (light : ptr) :
  incl l' l ->
  fst (TraceRay_light heap (l ++ l') raydir obj interPos normal albedo
         color light)
  = fst (TraceRay_light heap l raydir obj interPos normal albedo color light).
Proof.
  intro Hincl. rewrite !TraceRay_light_color. unfold unoccluded, occluder.
  rewrite (query_listed_again heap l l' _ _ Hincl). reflexivity.
Qed.

(** X13.  A light listed twice shines twice: appending to the scene list
    an object that is already in it leaves the hit and the shadow tests
    as they are, and runs the turn of that object once more on the colour
    computed so far. *)
Theorem TraceRay_light_listed_again
    (heap : ptr -> SceneObject) (l : list ptr) (q : ptr)
    (rayorig raydir : vec3) (depth : Z) (obj : ptr) (minDistance : float)
    (color : vec3) :
  In q l ->
  FindFirstIntersector heap l rayorig raydir = (Some obj, minDistance) ->
  TraceRay heap l rayorig raydir depth = Some color ->
  let interPos := (rayorig + normalize raydir *: minDistance)%vec in
  let normal := GetSurfaceNormal (heap obj) interPos in
  let albedo := albedo (GetMaterial (heap obj) interPos) in
  TraceRay heap (l ++ [q]) rayorig raydir depth
  = Some (if unoccluded heap l interPos q then
            (color + diffuse_term heap interPos normal albedo q
             + specular_term (specular (GetMaterial (heap obj) origin0))
                 (specular_dot heap raydir interPos normal q))%vec
          else color).
Proof.
  intros Hq Hhit Hcolor interPos normal albedo.
  assert (Hincl : incl [q] l) by (intros q' [<- | []]; exact Hq).
  rewrite TraceRay_color in Hcolor |- *.
  rewrite (query_listed_again heap l [q] _ _ Hincl).
  rewrite Hhit in Hcolor |- *. cbv zeta in Hcolor |- *.
  fold interPos normal albedo in Hcolor |- *.
  injection Hcolor as Hcolor. f_equal.
  rewrite fold_left_app. cbn [fold_left].
  rewrite light_listed_again by exact Hincl.
  rewrite TraceRay_light_color.
  replace (fold_left
             (fun color0 light =>
                fst (TraceRay_light heap (l ++ [q]) raydir obj interPos normal
                       albedo color0 light))
             l (emissive (GetMaterial (heap obj) origin0)))
    with color; [reflexivity | ].
  rewrite <- Hcolor. apply fold_left_agree.
  intros c light _. symmetry. apply light_listed_again, Hincl.
Qed.

(** ** The sample positions of the render driver *)

Lemma in_range (n k : Z) : (0 <= k < n)%Z -> In k (range n).
Proof.
  intro Hk. unfold range. apply in_map_iff. exists (Z.to_nat k).
  split; [lia | ]. apply in_seq. lia.
Qed.

Lemma centre_next (k : Z) :
  (0 <= k < 511)%Z -> ltb (centre k) (centre (k + 1)) = true.
Proof.
  intro Hk.
  assert (H : forallb (fun k => ltb (centre k) (centre (k + 1))) (range 511)
              = true) by (vm_compute; reflexivity).
  rewrite forallb_forall in H. apply H, in_range, Hk.
Qed.

Lemma for_each_agree {A B} (f g : A -> option B) (l : list A) :
  (forall a, In a l -> f a = g a) -> for_each f l = for_each g l.
Proof.
  induction l as [| a l IH]; intro H; simpl; [reflexivity | ].
  rewrite (H a (or_introl eq_refl)), IH; [reflexivity | ].
  intros a' Ha'. apply H. now right.
Qed.

Lemma centres_increase (k k' : Z) :
  (0 <= k)%Z -> (k < k')%Z -> (k' < 512)%Z ->
  ltb (centre k) (centre k') = true.
Proof.
  intros H0 Hlt Hmax.
  replace k' with (k + 1 + Z.of_nat (Z.to_nat (k' - k - 1)))%Z by lia.
  assert (Hn : (k + 1 + Z.of_nat (Z.to_nat (k' - k - 1)) < 512)%Z) by lia.
  revert Hn. generalize (Z.to_nat (k' - k - 1)) as n.
  induction n as [| n IH]; intro Hn.
  - rewrite Z.add_0_r. apply centre_next. lia.
  - apply (ltb_trans _ (centre (k + 1 + Z.of_nat n))); [apply IH; lia | ].
    replace (k + 1 + Z.of_nat (S n))%Z with (k + 1 + Z.of_nat n + 1)%Z by lia.
    apply centre_next. lia.
Qed.

Lemma centre_not_negative (k : Z) :
  (0 <= k < 512)%Z -> ltb (centre k) zero = false.
Proof.
  intro Hk.
  assert (H : forallb (fun k => negb (ltb (centre k) zero)) (range 512)
              = true) by (vm_compute; reflexivity).
  rewrite forallb_forall in H. apply negb_true_iff, H, in_range, Hk.
Qed.

(** X14.  [DrawScene] uses the camera only through its position and its
    world rays at the centres [((float)x + .5f, (float)y + .5f)] of the
    512 * 512 pixels: two cameras that agree there give the same image,
    or both none.  Over the rows and the columns of the image these
    centre coordinates are strictly increasing, so that different pixels
    are sampled at different positions. *)
Theorem DrawScene_samples_pixel_centres
    (heap : ptr -> SceneObject) (sceneObjects : list ptr)
    (pCamera pCamera' : Camera) (clamp : vec3 -> vec3 -> vec3 -> vec3) :
  position pCamera = position pCamera' ->
  (forall px py,
      (0 <= px < ImageWidth)%Z -> (0 <= py < ImageHeight)%Z ->
      GetWorldRay pCamera (centre px, centre py)
      = GetWorldRay pCamera' (centre px, centre py)) ->
  DrawScene heap sceneObjects pCamera clamp
    = DrawScene heap sceneObjects pCamera' clamp /\
  forall k k',
    (0 <= k)%Z -> (k < k')%Z -> (k' < Z.max ImageWidth ImageHeight)%Z ->
    ltb (centre k) (centre k') = true.
Proof.
  intros Hpos Hrays. split.
  - unfold DrawScene. apply for_each_agree. intros [px py] Hin.
    cbn [fst snd]. apply in_flat_map in Hin. destruct Hin as (y' & Hy' & Hin).
    apply in_map_iff in Hin. destruct Hin as (x' & [= <- <-] & Hx').
    unfold DrawScene_pixel. fold (centre x'). fold (centre y').
    rewrite Hpos.
    rewrite (Hrays x' y' (range_bounds _ _ Hx') (range_bounds _ _ Hy')).
    reflexivity.
  - intros k k' H0 Hlt Hmax. apply centres_increase; assumption.
Qed.

(** ** The properties at work on the example scenes *)

(** The twin spheres with the first one listed again. *)
Lemma FindFirstIntersector_listed_again_witness :
  incl Examples.one_object Examples.two_objects /\
  FindFirstIntersector Examples.twin_heap
    (Examples.two_objects ++ Examples.one_object)
    Scenes.on_axis Scenes.along_axis
  = FindFirstIntersector Examples.twin_heap Examples.two_objects
      Scenes.on_axis Scenes.along_axis.
Proof.
  assert (H : incl Examples.one_object Examples.two_objects)
    by (intros q [<- | []]; left; reflexivity).
  split; [exact H | ].
  exact (FindFirstIntersector_listed_again Examples.twin_heap
           Examples.two_objects Examples.one_object
           Scenes.on_axis Scenes.along_axis H).
Defined.

(** Two spheres at the distances 4 and 9, listed in either order. *)
Lemma FindFirstIntersector_order_irrelevant_witness :
  no_ties Scenes.row_heap Scenes.on_axis Scenes.along_axis [0; 1]%nat /\
  FindFirstIntersector Scenes.row_heap [0; 1]%nat
    Scenes.on_axis Scenes.along_axis = (Some 0%nat, of_int 4) /\
  FindFirstIntersector Scenes.row_heap [1; 0]%nat
    Scenes.on_axis Scenes.along_axis = (Some 0%nat, of_int 4).
Proof.
  assert (E0 : Intersects (Scenes.row_heap 0%nat) Scenes.on_axis
                 Scenes.along_axis = Some (of_int 4))
    by (vm_compute; reflexivity).
  assert (E1 : Intersects (Scenes.row_heap 1%nat) Scenes.on_axis
                 Scenes.along_axis = Some (of_int 9))
    by (vm_compute; reflexivity).
  assert (L : ltb (of_int 4) (of_int 9) = true) by (vm_compute; reflexivity).
  assert (T : no_ties Scenes.row_heap Scenes.on_axis Scenes.along_axis
                [0; 1]%nat).
  { intros q1 q2 d1 d2 [<- | [<- | []]] [<- | [<- | []]] N H1 H2 _ _.
    - destruct (N eq_refl).
    - rewrite E0 in H1. rewrite E1 in H2.
      injection H1 as <-. injection H2 as <-. left. exact L.
    - rewrite E1 in H1. rewrite E0 in H2.
      injection H1 as <-. injection H2 as <-. right. exact L.
    - destruct (N eq_refl). }
  assert (S : forall q, In q [0; 1]%nat <-> In q [1; 0]%nat)
    by (intro q; simpl; tauto).
  split; [exact T | ].
  rewrite <- (FindFirstIntersector_order_irrelevant Scenes.row_heap
                [0; 1]%nat [1; 0]%nat Scenes.on_axis Scenes.along_axis S T).
  split; vm_compute; reflexivity.
Defined.

(** The board alone, seen on its glowing tile: the board is no light to
    itself, and the colour is the emissive colour of the tile that holds
    the origin, which is black. *)
Lemma TraceRay_full_shadow_witness :
  FindFirstIntersector Examples.board_heap Examples.one_object
    Examples.above_glowing Examples.down = (Some 0%nat, of_int 4) /\
  TraceRay Examples.board_heap Examples.one_object
    Examples.above_glowing Examples.down 0
  = Some (Examples.vec 0 0 0).
Proof.
  assert (H : FindFirstIntersector Examples.board_heap Examples.one_object
                Examples.above_glowing Examples.down = (Some 0%nat, of_int 4))
    by (vm_compute; reflexivity).
  assert (D : forall light, In light Examples.one_object ->
            occluder Examples.board_heap Examples.one_object
              (Examples.above_glowing
               + normalize Examples.down *: of_int 4)%vec light
            <> Some light).
  { intros light [<- | []].
    assert (E : occluder Examples.board_heap Examples.one_object
                  (Examples.above_glowing
                   + normalize Examples.down *: of_int 4)%vec 0%nat = None)
      by (vm_compute; reflexivity).
    rewrite E. discriminate. }
  split; [exact H | ].
  rewrite (TraceRay_full_shadow Examples.board_heap Examples.one_object
             Examples.above_glowing Examples.down 0 0%nat (of_int 4) H D).
  vm_compute. reflexivity.
Defined.

(** The board and the repainted board differ on the odd tiles only, in
    what [TraceRay] does not read; a ray onto an odd tile gives the same
    colour on both. *)
Lemma TraceRay_reads_materials_at_origin_witness :
  same_shading Examples.board_heap Scenes.repainted_heap /\
  GetMaterial (Examples.board_heap 0%nat) Examples.on_glowing
    = Examples.glowing /\
  GetMaterial (Scenes.repainted_heap 0%nat) Examples.on_glowing
    = Scenes.dull /\
  TraceRay Examples.board_heap Examples.two_objects
    Examples.above_glowing Examples.down 0
  = TraceRay Scenes.repainted_heap Examples.two_objects
      Examples.above_glowing Examples.down 0.
Proof.
  assert (H : same_shading Examples.board_heap Scenes.repainted_heap).
  { intros [| [| [| p]]]; repeat split; try reflexivity;
      intro pos; cbn;
      destruct (Z.even (Primitives.floor (x pos) + Primitives.floor (z pos)));
      reflexivity. }
  split; [exact H | ].
  split; [vm_compute; reflexivity | ].
  split; [vm_compute; reflexivity | ].
  exact (TraceRay_reads_materials_at_origin Examples.board_heap
           Scenes.repainted_heap Examples.two_objects
           Examples.above_glowing Examples.down 0 H).
Defined.

(** Under the camera that looks straight down onto the board every ray
    hits the board at distance 4, so the image is drawn. *)
Lemma DrawScene_undefined_only_by_miss_witness :
  clamps Examples.clamp /\
  DrawScene Examples.board_heap Examples.two_objects Examples.top_camera
    Examples.clamp <> None.
Proof.
  split; [exact clamp_clamps | ].
  intro H.
  apply (proj1 (DrawScene_undefined_only_by_miss Examples.board_heap
                  Examples.two_objects Examples.top_camera Examples.clamp
                  clamp_clamps)) in H.
  destruct H as (px & py & _ & _ & Hmiss).
  change (pixel_ray Examples.top_camera px py) with Examples.down in Hmiss.
  change (position Examples.top_camera) with Examples.above_glossy in Hmiss.
  assert (E : Intersects (Examples.board_heap 0%nat) Examples.above_glossy
                Examples.down = Some (of_int 4))
    by (vm_compute; reflexivity).
  assert (L : ltb (of_int 4) FLT_MAX = true) by (vm_compute; reflexivity).
  rewrite (Hmiss 0%nat (of_int 4) (or_introl eq_refl) E) in L.
  discriminate L.
Defined.

(** The twin spheres: the second one is never a light, the first one
    stands in its way at the same distance. *)
Lemma TraceRay_light_blocked_by_tie_witness :
  let ray := shadow_ray Examples.twin_heap Scenes.on_axis 1%nat in
  Intersects (Examples.twin_heap 1%nat) (fst ray) (snd ray)
    = Some Scenes.tie_distance /\
  Intersects (Examples.twin_heap 0%nat) (fst ray) (snd ray)
    = Some Scenes.tie_distance /\
  fst (TraceRay_light Examples.twin_heap Examples.two_objects
         Scenes.along_axis 0%nat Scenes.on_axis (Examples.vec 0 0 1)
         (Examples.vec 1 1 1) origin0 1%nat)
  = origin0.
Proof.
  intro ray.
  assert (E1 : Intersects (Examples.twin_heap 1%nat) (fst ray) (snd ray)
               = Some Scenes.tie_distance) by (vm_compute; reflexivity).
  assert (E0 : Intersects (Examples.twin_heap 0%nat) (fst ray) (snd ray)
               = Some Scenes.tie_distance) by (vm_compute; reflexivity).
  split; [exact E1 | ]. split; [exact E0 | ].
  refine (TraceRay_light_blocked_by_tie Examples.twin_heap [0%nat] []
            Scenes.along_axis 0%nat Scenes.on_axis (Examples.vec 0 0 1)
            (Examples.vec 1 1 1) origin0 1%nat 0%nat
            Scenes.tie_distance Scenes.tie_distance _ _ E1 E0 _ _).
  - intros [N | []]. discriminate N.
  - left. reflexivity.
  - vm_compute. reflexivity.
  - vm_compute. reflexivity.
Defined.

(** Under a lamp without green the green channel changes and the red
    one does not. *)
Lemma TraceRay_channels_do_not_mix_witness :
  same_channel red Examples.board_heap Scenes.tinted_heap /\
  option_map (get red)
    (TraceRay Examples.board_heap Examples.two_objects
       Examples.above_glossy Examples.down 0)
  = option_map (get red)
      (TraceRay Scenes.tinted_heap Examples.two_objects
         Examples.above_glossy Examples.down 0) /\
  option_map (get green)
    (TraceRay Examples.board_heap Examples.two_objects
       Examples.above_glossy Examples.down 0)
  <> option_map (get green)
       (TraceRay Scenes.tinted_heap Examples.two_objects
          Examples.above_glossy Examples.down 0).
Proof.
  assert (H : same_channel red Examples.board_heap Scenes.tinted_heap).
  { intros [| [| [| p]]]; repeat split; reflexivity. }
  split; [exact H | ]. split.
  - exact (TraceRay_channels_do_not_mix red Examples.board_heap
             Scenes.tinted_heap Examples.two_objects
             Examples.above_glossy Examples.down 0 H).
  - vm_compute. discriminate.
Defined.

(** The lamp above the board listed twice: the colour above the glossy
    tile, [bright] in every channel with the lamp listed once, is twice
    that. *)
Lemma TraceRay_light_listed_again_witness :
  let white := Vec3 Scenes.bright Scenes.bright Scenes.bright in
  TraceRay Examples.board_heap Examples.two_objects
    Examples.above_glossy Examples.down 0 = Some white /\
  TraceRay Examples.board_heap (Examples.two_objects ++ [1%nat])
    Examples.above_glossy Examples.down 0
  = Some (white *: two)%vec.
Proof.
  intro white.
  assert (H : FindFirstIntersector Examples.board_heap Examples.two_objects
                Examples.above_glossy Examples.down = (Some 0%nat, of_int 4))
    by (vm_compute; reflexivity).
  assert (C : TraceRay Examples.board_heap Examples.two_objects
                Examples.above_glossy Examples.down 0 = Some white)
    by (vm_compute; reflexivity).
  split; [exact C | ].
  pose proof (TraceRay_light_listed_again Examples.board_heap
                Examples.two_objects 1%nat Examples.above_glossy
                Examples.down 0 0%nat (of_int 4) white
                (or_intror (or_introl eq_refl)) H C) as R.
  cbv zeta in R. refine (eq_trans R _). vm_compute. reflexivity.
Defined.

(** A camera that differs from the one above the board only left of the
    image gives the same image. *)
Lemma DrawScene_samples_pixel_centres_witness :
  GetWorldRay Examples.top_camera (of_int (-1), zero) = Examples.down /\
  GetWorldRay Scenes.odd_camera (of_int (-1), zero) = Examples.up /\
  DrawScene Examples.board_heap Examples.two_objects Examples.top_camera
    Examples.clamp
  = DrawScene Examples.board_heap Examples.two_objects Scenes.odd_camera
      Examples.clamp /\
  ltb (centre 3) (centre 4) = true.
Proof.
  split; [reflexivity | ]. split; [vm_compute; reflexivity | ].
  assert (Hrays : forall px py,
            (0 <= px < ImageWidth)%Z -> (0 <= py < ImageHeight)%Z ->
            GetWorldRay Examples.top_camera (centre px, centre py)
            = GetWorldRay Scenes.odd_camera (centre px, centre py)).
  { intros px py Hx _. cbn [GetWorldRay Examples.top_camera
                             Scenes.odd_camera fst].
    rewrite (centre_not_negative px Hx). reflexivity. }
  destruct (DrawScene_samples_pixel_centres Examples.board_heap
              Examples.two_objects Examples.top_camera Scenes.odd_camera
              Examples.clamp eq_refl Hrays) as [Hsame Hinc].
  split; [exact Hsame | ].
  apply Hinc; [lia | lia | vm_compute; reflexivity].
Defined.

